(** * Air-quality dashboard: the data-aggregation functions

    A shallow embedding of the pure functions of the dashboard
    ([parseCSV], [getAverageAQI], [getColorForAQI], [getHealthImplications]
    of the utility module, and the derived aggregates [pollutantAverages],
    [topCities] and [categoryDist] of the main view), with the properties the
    specification states about them.

    Conventions of the embedding.
    - A JavaScript string is a sequence of UTF-16 code units; a [string] here
      is a sequence of code units below 256, one [ascii] each (the dataset is
      plain ASCII).
    - A JavaScript number that the program stores in a record is either an
      integer or NaN (this is what [parseInt] produces); integers are exact
      ([Z]), the quotient of two of them is an exact rational ([Q]).  The
      rounding of IEEE doubles is not modelled: sums and quotients are
      those of the program as long as no rounding occurs, and the
      properties of sums and means carry the bound [within_doubles] under
      which none does.
    - A JavaScript object used as a dictionary is an association list in
      insertion order, which is the order [Object.entries] enumerates string
      keys in.  The properties an object literal inherits from
      [Object.prototype] ([__proto__], [constructor], ...) and the numeric
      ordering of keys that look like array indices are modelled for the
      records of the parser ([assign]) and not for the dictionaries of
      counts and statistics, whose properties carry the hypothesis that the
      keys are plain ([own_name], [plain_key]).
    - A call that can throw returns a [result]. *)

From Stdlib Require Import ZArith QArith Qround Qabs.
From Stdlib Require Import Bool Ascii String List.
From Stdlib Require Import Lia Lqa Permutation.
Import ListNotations.

Local Open Scope string_scope.
Local Open Scope list_scope.
Local Open Scope Z_scope.

(** ** Numbers *)

Inductive number : Type :=
| Int (z : Z)
| NaN.

(** [a <= b] on numbers: every comparison with NaN is false. *)
Definition num_le (a b : number) : bool :=
  match a, b with
  | Int x, Int y => x <=? y
  | _, _ => false
  end.

(** ** Objects as insertion-ordered dictionaries *)

Section Objects.
Context {V : Type}.

Definition object : Type := list (string * V).

(** [o[k]]: [None] stands for [undefined]. *)
Fixpoint get (o : object) (k : string) : option V :=
  match o with
  | [] => None
  | (k', v) :: o' => if String.eqb k k' then Some v else get o' k
  end.

(** [o[k] = v]: an existing key keeps its place, a new one goes last. *)
Fixpoint set (o : object) (k : string) (v : V) : object :=
  match o with
  | [] => [(k, v)]
  | (k', v') :: o' =>
      if String.eqb k k' then (k', v) :: o' else (k', v') :: set o' k v
  end.

Definition keys (o : object) : list string := map fst o.
End Objects.

Arguments object V : clear implicits.

(** ** types.ts: the category colour table *)

Definition CategoryColors : object string :=
  [ ("Good", "#4ade80");
    ("Moderate", "#facc15");
    ("Unhealthy for Sensitive Groups", "#fb923c");
    ("Unhealthy", "#f87171");
    ("Very Unhealthy", "#a78bfa");
    ("Hazardous", "#881337") ].

(** ** utils.ts: colour and health buckets *)

Definition getColorForAQI (aqi : number) : option string :=
  if num_le aqi (Int 50) then get CategoryColors "Good"
  else if num_le aqi (Int 100) then get CategoryColors "Moderate"
  else if num_le aqi (Int 150) then get CategoryColors "Unhealthy for Sensitive Groups"
  else if num_le aqi (Int 200) then get CategoryColors "Unhealthy"
  else if num_le aqi (Int 300) then get CategoryColors "Very Unhealthy"
  else get CategoryColors "Hazardous".

Record HealthImplications : Type := mkHealth {
  impact : string;
  advice : string
}.

Definition getHealthImplications (aqi : number) : HealthImplications :=
  if num_le aqi (Int 50) then
    {| impact := "Air quality is satisfactory, and air pollution poses little or no risk.";
       advice := "It's a great day to be active outside." |}
  else if num_le aqi (Int 100) then
    {| impact := "Air quality is acceptable. However, there may be a risk for some people, particularly those who are unusually sensitive to air pollution.";
       advice := "Unusually sensitive people should consider reducing prolonged or heavy exertion." |}
  else if num_le aqi (Int 150) then
    {| impact := "Members of sensitive groups may experience health effects. The general public is less likely to be affected.";
       advice := "People with heart or lung disease, older adults, and children should reduce prolonged or heavy exertion." |}
  else if num_le aqi (Int 200) then
    {| impact := "Everyone may begin to experience health effects; members of sensitive groups may experience more serious health effects.";
       advice := "People with heart or lung disease, older adults, and children should avoid prolonged or heavy exertion. Everyone else should reduce prolonged or heavy exertion." |}
  else if num_le aqi (Int 300) then
    {| impact := "Health warnings of emergency conditions. The entire population is more likely to be affected.";
       advice := "People with heart or lung disease, older adults, and children should avoid all physical activity outdoors. Everyone else should avoid prolonged or heavy exertion." |}
  else
    {| impact := "Health alert: everyone may experience more serious health effects.";
       advice := "Everyone should avoid all physical activity outdoors." |}.

(** *** The six buckets, as the specification names them *)

Inductive bucket : Type :=
| Good | Moderate | UnhealthySensitive | Unhealthy | VeryUnhealthy | Hazardous.

(** The label of a bucket: the values of the [AQICategory] enumeration. *)
Definition AQICategory (b : bucket) : string :=
  match b with
  | Good => "Good"
  | Moderate => "Moderate"
  | UnhealthySensitive => "Unhealthy for Sensitive Groups"
  | Unhealthy => "Unhealthy"
  | VeryUnhealthy => "Very Unhealthy"
  | Hazardous => "Hazardous"
  end.

Definition bucket_index (b : bucket) : nat :=
  match b with
  | Good => 0 | Moderate => 1 | UnhealthySensitive => 2
  | Unhealthy => 3 | VeryUnhealthy => 4 | Hazardous => 5
  end%nat.

(** The bucket of an integer by the inclusive upper bounds of the
    specification: 50, 100, 150, 200, 300. *)
Definition bucket_of (aqi : Z) : bucket :=
  if aqi <=? 50 then Good
  else if aqi <=? 100 then Moderate
  else if aqi <=? 150 then UnhealthySensitive
  else if aqi <=? 200 then Unhealthy
  else if aqi <=? 300 then VeryUnhealthy
  else Hazardous.

(** The colour token of a bucket: its entry in the colour table. *)
Definition bucket_color (b : bucket) : option string :=
  get CategoryColors (AQICategory b).

(** Position of a value in a list, by a decidable equality. *)
Fixpoint index_of {A : Type} (eqb : A -> A -> bool) (x : A) (l : list A)
  : option nat :=
  match l with
  | [] => None
  | y :: l' =>
      if eqb x y then Some 0%nat
      else option_map S (index_of eqb x l')
  end.

(** The colour tokens of the table, in table order. *)
Definition color_tokens : list string := map snd CategoryColors.

(** The six health texts, in the order of the branches of
    [getHealthImplications]. *)
Definition health_texts : list HealthImplications :=
  map (fun t => getHealthImplications (Int t)) [50; 100; 150; 200; 300; 301].

Definition health_eqb (a b : HealthImplications) : bool :=
  String.eqb (impact a) (impact b) && String.eqb (advice a) (advice b).

(** The bucket index a colour stands for, and the one a health text
    stands for. *)
Definition color_bucket_index (c : option string) : option nat :=
  match c with
  | Some c => index_of String.eqb c color_tokens
  | None => None
  end.

Definition health_bucket_index (h : HealthImplications) : option nat :=
  index_of health_eqb h health_texts.

(** ** Strings: the methods of [String.prototype] the parser calls *)

Definition LF : ascii := "010"%char.
Definition comma : ascii := ","%char.

(** White space and line terminators of ECMAScript among the code units
    below 256: TAB, LF, VT, FF, CR, SP and NBSP. *)
Definition is_white_space (c : ascii) : bool :=
  let n := nat_of_ascii c in
  ((9 <=? n) && (n <=? 13) || (n =? 32) || (n =? 160))%nat.

Fixpoint trimStart (s : string) : string :=
  match s with
  | String c s' => if is_white_space c then trimStart s' else s
  | EmptyString => EmptyString
  end.

Fixpoint trimEnd (s : string) : string :=
  match s with
  | String c s' =>
      match trimEnd s' with
      | EmptyString => if is_white_space c then EmptyString else String c EmptyString
      | r => String c r
      end
  | EmptyString => EmptyString
  end.

(** [s.trim()] *)
Definition trim (s : string) : string := trimEnd (trimStart s).

(** [s.split(sep)] for a one-character separator: never empty, the empty
    string splits into one empty piece. *)
Fixpoint split (sep : ascii) (s : string) : list string :=
  match s with
  | EmptyString => [EmptyString]
  | String c s' =>
      if Ascii.eqb c sep then EmptyString :: split sep s'
      else match split sep s' with
           | piece :: rest => String c piece :: rest
           | [] => [String c EmptyString]
           end
  end.

(** [s.includes(sub)] *)
Fixpoint includes (sub s : string) : bool :=
  String.prefix sub s ||
  match s with
  | String _ s' => includes sub s'
  | EmptyString => false
  end.

(** ** [parseInt(string, 10)] *)

Definition digit_of (c : ascii) : option Z :=
  let n := nat_of_ascii c in
  if ((48 <=? n) && (n <=? 57))%nat then Some (Z.of_nat n - 48) else None.

(** The value of the longest prefix of decimal digits, [None] when that
    prefix is empty. *)
Fixpoint leading_digits (s : string) (acc : option Z) : option Z :=
  match s with
  | String c s' =>
      match digit_of c with
      | Some d =>
          leading_digits s' (Some (10 * match acc with Some a => a | None => 0 end + d))
      | None => acc
      end
  | EmptyString => acc
  end.

(** Leading white space is skipped, one sign is read, then the digits;
    whatever follows them is ignored.  No digit at all gives NaN.  With
    radix 10 a prefix "0x" is not special.  The result is the exact
    integer: the sign of a zero and the rounding of a very long digit
    string to a double are not modelled. *)
Definition parseInt (input : string) : number :=
  let str := trimStart input in
  let '(sign, str) :=
    match str with
    | String "-"%char rest => (-1, rest)
    | String "+"%char rest => (1, rest)
    | _ => (1, str)
    end in
  match leading_digits str None with
  | Some mathInt => Int (sign * mathInt)
  | None => NaN
  end.

(** ** Values a parsed record holds *)

Inductive jsval : Type :=
| VStr (s : string)
| VNum (n : number)
| VUndefined.

(** [ToString], as [parseInt] applies it to its argument; an argument that
    is already a number does not occur. *)
Definition to_string (v : option string) : string :=
  match v with
  | Some s => s
  | None => "undefined"
  end.

(** ** Exceptions *)

Inductive result (A : Type) : Type :=
| Ok (a : A)
| Throw (error : string).

Arguments Ok {A} a.
Arguments Throw {A} error.

Definition bind {A B : Type} (r : result A) (k : A -> result B) : result B :=
  match r with
  | Ok a => k a
  | Throw e => Throw e
  end.

Notation "x <- r ;; k" := (bind r (fun x => k))
  (at level 61, r at next level, right associativity).

(** Calling a method on [array[i]]: a [TypeError] when the index is out of
    range, since the element is then [undefined]. *)
Definition receiver {A : Type} (array : list A) (i : nat) : result A :=
  match nth_error array i with
  | Some a => Ok a
  | None => Throw "TypeError"
  end.

(** ** utils.ts: [parseCSV] *)

(** [record[k] = v] on an object literal, for a value that is not an
    object: under the name [__proto__] the assignment reaches the setter
    inherited from [Object.prototype], which ignores such a value, and the
    record gets no field; under any other name the field is written. *)
Definition assign (record : object jsval) (k : string) (v : jsval)
  : object jsval :=
  if String.eqb k "__proto__" then record else set record k v.

(** The body of [headers.forEach((header, index) => ...)], from [index] on. *)
Fixpoint forEach_header (headers : list string) (index : nat)
    (currentLine : list string) (record : object jsval) : object jsval :=
  match headers with
  | [] => record
  | header :: headers' =>
      let value := nth_error currentLine index in
      let record :=
        if includes "Value" header
        then assign record header (VNum (parseInt (to_string value)))
        else assign record header
               match value with Some s => VStr s | None => VUndefined end in
      forEach_header headers' (S index) currentLine record
  end.

(** The [for] loop, which runs for [i = 1, ..., lines.length - 1]: [steps]
    counts the iterations left and [i] is the counter. *)
Fixpoint for_lines (lines headers : list string) (steps i : nat)
    (records : list (object jsval)) : result (list (object jsval)) :=
  match steps with
  | O => Ok records
  | S steps' =>
      line <- receiver lines i ;;
      let currentLine := split comma line in
      let records :=
        if (length currentLine =? length headers)%nat
        then records ++ [forEach_header headers 0 currentLine []]
        else records in
      for_lines lines headers steps' (S i) records
  end.

Definition parseCSV (csv : string) : result (list (object jsval)) :=
  let lines := split LF (trim csv) in
  line0 <- receiver lines 0 ;;
  let headers := split comma line0 in
  for_lines lines headers (length lines - 1) 1 [].

(** ** Arithmetic on numbers *)

Definition num_add (a b : number) : number :=
  match a, b with
  | Int x, Int y => Int (x + y)
  | _, _ => NaN
  end.

Definition num_sub (a b : number) : number :=
  match a, b with
  | Int x, Int y => Int (x - y)
  | _, _ => NaN
  end.

(** [a / b]: the exact quotient, [None] for NaN.  A zero divisor gives an
    infinity or NaN in JavaScript; every division of the program is guarded
    against it, and the model answers [None] there. *)
Definition num_div (a b : number) : option Q :=
  match a, b with
  | Int x, Int y => if y =? 0 then None else Some (inject_Z x / inject_Z y)%Q
  | _, _ => None
  end.

(** [Math.round]: the closest integer, a tie going up. *)
Definition Math_round (x : option Q) : number :=
  match x with
  | Some q => Int (Qfloor (q + (1 # 2))%Q)
  | None => NaN
  end.

(** [array.length] as a number. *)
Definition length_number {A : Type} (array : list A) : number :=
  Int (Z.of_nat (length array)).

(** ** types.ts: the record schema *)

Record AQIRecord : Type := mkAQIRecord {
  Country : string;
  City : string;
  AQI_Value : number;
  AQI_Category : string;
  CO_AQI_Value : number;
  CO_AQI_Category : string;
  Ozone_AQI_Value : number;
  Ozone_AQI_Category : string;
  NO2_AQI_Value : number;
  NO2_AQI_Category : string;
  PM25_AQI_Value : number;
  PM25_AQI_Category : string
}.

(** ** utils.ts: [getAverageAQI] *)

Definition getAverageAQI (data : list AQIRecord) : number :=
  if (length data =? 0)%nat then Int 0
  else
    let sum := fold_left (fun acc curr => num_add acc (AQI_Value curr)) data (Int 0) in
    Math_round (num_div sum (length_number data)).

(** ** App.tsx: [pollutantAverages] *)

Record Sums : Type := mkSums {
  sum_Total_AQI : number;
  sum_PM25 : number;
  sum_CO : number;
  sum_NO2 : number;
  sum_Ozone : number
}.

Definition pollutantAverages (countryData : list AQIRecord)
  : list (string * number) :=
  if (length countryData =? 0)%nat then []
  else
    let sums :=
      fold_left
        (fun sums d =>
           {| sum_Total_AQI := num_add (sum_Total_AQI sums) (AQI_Value d);
              sum_PM25 := num_add (sum_PM25 sums) (PM25_AQI_Value d);
              sum_CO := num_add (sum_CO sums) (CO_AQI_Value d);
              sum_NO2 := num_add (sum_NO2 sums) (NO2_AQI_Value d);
              sum_Ozone := num_add (sum_Ozone sums) (Ozone_AQI_Value d) |})
        countryData
        (mkSums (Int 0) (Int 0) (Int 0) (Int 0) (Int 0)) in
    let count := length_number countryData in
    [ ("Total", Math_round (num_div (sum_Total_AQI sums) count));
      ("PM2.5", Math_round (num_div (sum_PM25 sums) count));
      ("CO", Math_round (num_div (sum_CO sums) count));
      ("NO2", Math_round (num_div (sum_NO2 sums) count));
      ("Ozone", Math_round (num_div (sum_Ozone sums) count)) ].

(** ** App.tsx: [topCities] *)

(** The numeric keys of a record, the ones [pollutantType] ranges over in
    the ranking (a text key would make the comparator subtract strings). *)
Inductive pollutantType : Type :=
| key_AQI_Value
| key_PM25_AQI_Value
| key_CO_AQI_Value
| key_NO2_AQI_Value
| key_Ozone_AQI_Value.

(** [d[pollutantType]] *)
Definition field (d : AQIRecord) (k : pollutantType) : number :=
  match k with
  | key_AQI_Value => AQI_Value d
  | key_PM25_AQI_Value => PM25_AQI_Value d
  | key_CO_AQI_Value => CO_AQI_Value d
  | key_NO2_AQI_Value => NO2_AQI_Value d
  | key_Ozone_AQI_Value => Ozone_AQI_Value d
  end.

(** [Array.prototype.sort(comparefn)].  The language requires the sort to
    be stable, and with a consistent comparator that fixes the outcome; it
    is computed here by insertion.  An element moves behind another only
    when the comparator is positive; a NaN comparison counts as zero. *)
Definition is_positive (v : number) : bool :=
  match v with
  | Int z => 0 <? z
  | NaN => false
  end.

Fixpoint sort_insert {A : Type} (comparefn : A -> A -> number) (x : A)
    (sorted : list A) : list A :=
  match sorted with
  | [] => [x]
  | y :: rest =>
      if is_positive (comparefn x y) then y :: sort_insert comparefn x rest
      else x :: sorted
  end.

Definition sort {A : Type} (comparefn : A -> A -> number) (array : list A)
  : list A :=
  fold_right (sort_insert comparefn) [] array.

(** [array.slice(0, n)] *)
Definition slice0 {A : Type} (n : nat) (array : list A) : list A :=
  firstn n array.

Definition topCities (data : list AQIRecord) (k : pollutantType)
  : list AQIRecord :=
  slice0 10 (sort (fun a b => num_sub (field b k) (field a k)) data).

(** ** App.tsx: [categoryDist] *)

(** [x || 0] for a count read from the dictionary. *)
Definition or_zero (x : option number) : number :=
  match x with
  | Some (Int z) => Int z
  | Some NaN => Int 0
  | None => Int 0
  end.

(** [table[label] || fallback] for a colour read from the table. *)
Definition or_color (x : option string) (fallback : string) : string :=
  match x with
  | Some c => if String.eqb c "" then fallback else c
  | None => fallback
  end.

(** The dictionary [counts] after the [forEach], for category labels that
    are plain keys ([own_name], and [plain_key] for the order of the
    entries). *)
Definition category_counts (countryData : list AQIRecord) : object number :=
  fold_left
    (fun counts d =>
       set counts (AQI_Category d)
         (num_add (or_zero (get counts (AQI_Category d))) (Int 1)))
    countryData [].

(** One (label, value, color) triple per entry of [counts]. *)
Definition categoryDist (countryData : list AQIRecord)
  : list (string * number * string) :=
  map (fun '(label, value) =>
         (label, value, or_color (get CategoryColors label) "#ccc"))
      (category_counts countryData).

(** ** Map.tsx: statistics per country and the legend *)

Module Map.

(** One value of the dictionary [stats]. *)
Record stat : Type := mkStat {
  totalAQI : number;
  count : number;
  cities : list AQIRecord
}.

(** [stats[k].field = f(stats[k].field)]: reading a property of
    [undefined] is a [TypeError]. *)
Definition update (stats : object stat) (k : string) (f : stat -> stat)
  : result (object stat) :=
  match get stats k with
  | Some s => Ok (set stats k (f s))
  | None => Throw "TypeError"
  end.

(** The body of [data.forEach(record => ...)], for country names that are
    plain keys ([plain_key]). *)
Definition visit (stats : object stat) (record : AQIRecord)
  : result (object stat) :=
  let stats :=
    match get stats (Country record) with
    | Some _ => stats
    | None => set stats (Country record) (mkStat (Int 0) (Int 0) [])
    end in
  stats <- update stats (Country record)
             (fun s => mkStat (num_add (totalAQI s) (AQI_Value record))
                              (count s) (cities s)) ;;
  stats <- update stats (Country record)
             (fun s => mkStat (totalAQI s) (num_add (count s) (Int 1))
                              (cities s)) ;;
  update stats (Country record)
    (fun s => mkStat (totalAQI s) (count s) (cities s ++ [record])).

Fixpoint forEach_record (data : list AQIRecord) (stats : object stat)
  : result (object stat) :=
  match data with
  | [] => Ok stats
  | record :: data' =>
      stats <- visit stats record ;;
      forEach_record data' stats
  end.

(** One element of the array [countryStats]. *)
Record entry : Type := mkEntry {
  country : string;
  avgAQI : number;
  cityCount : number;
  topCities : list AQIRecord
}.

Definition countryStats (data : list AQIRecord) : result (list entry) :=
  stats <- forEach_record data [] ;;
  Ok (map (fun '(country, s) =>
             {| country := country;
                avgAQI := Math_round (num_div (totalAQI s) (count s));
                cityCount := count s;
                topCities :=
                  slice0 3
                    (sort (fun a b => num_sub (AQI_Value b) (AQI_Value a))
                          (cities s)) |})
          stats).

(** One line of the legend. *)
Record legend : Type := mkLegend {
  label : string;
  range : string;
  color : option string
}.

Definition LEGEND_DATA : list legend :=
  [ mkLegend "Good" "0-50" (get CategoryColors "Good");
    mkLegend "Moderate" "51-100" (get CategoryColors "Moderate");
    mkLegend "Sensitive" "101-150"
             (get CategoryColors "Unhealthy for Sensitive Groups");
    mkLegend "Unhealthy" "151-200" (get CategoryColors "Unhealthy");
    mkLegend "Very Unhealthy" "201-300" (get CategoryColors "Very Unhealthy");
    mkLegend "Hazardous" "301+" (get CategoryColors "Hazardous") ].

End Map.

(** ** App.tsx: the country list and the records of a country *)

(** [Array.from(new Set(array))]: the distinct elements, each at the place
    of its first occurrence. *)
Definition Set_from (array : list string) : list string :=
  fold_left
    (fun set x => if existsb (String.eqb x) set then set else set ++ [x])
    array [].

(** The comparator [sort()] uses when it is given none: the strings are
    compared code unit by code unit. *)
Definition default_compare (x y : string) : number :=
  if String.ltb x y then Int (-1)
  else if String.ltb y x then Int 1
  else Int 0.

Definition countries (data : list AQIRecord) : list string :=
  sort default_compare (Set_from (map Country data)).

Definition countryData (data : list AQIRecord) (selectedCountry : string)
  : list AQIRecord :=
  filter (fun d => String.eqb (Country d) selectedCountry) data.

(** ** App.tsx: the figures of [InsightCard] *)

(** [a > b] on numbers. *)
Definition num_gt (a b : number) : bool :=
  match a, b with
  | Int x, Int y => y <? x
  | _, _ => false
  end.

(** [pollutants.reduce((prev, current) => ...)] with no initial value: a
    [TypeError] on the empty array. *)
Definition maxPollutant (pollutants : list (string * number))
  : result (string * number) :=
  match pollutants with
  | [] => Throw "TypeError"
  | first :: others =>
      Ok (fold_left
            (fun prev current =>
               if num_gt (snd prev) (snd current) then prev else current)
            others first)
  end.

Definition unhealthyCount (distribution : list (string * number * string))
  : number :=
  fold_left
    (fun acc cur => num_add acc (snd (fst cur)))
    (filter
       (fun d =>
          existsb (String.eqb (fst (fst d)))
            ["Unhealthy"; "Very Unhealthy"; "Hazardous";
             "Unhealthy for Sensitive Groups"])
       distribution)
    (Int 0).

(** The branch [InsightCard] takes on the average. *)
Definition tone (avgAQI : number) : string :=
  if num_le avgAQI (Int 50) then "positive"
  else if num_le avgAQI (Int 100) then "moderate"
  else "critical".

(** ** App.tsx: the options [SearchableSelect] lists *)

(** [s.toLowerCase()] on code units below 256: the letters A-Z and the
    accented capitals U+00C0-U+00DE, the sign U+00D7 apart, move up by 32. *)
Definition lower_char (c : ascii) : ascii :=
  let n := nat_of_ascii c in
  if ((65 <=? n) && (n <=? 90)
      || (192 <=? n) && (n <=? 222) && negb (n =? 215))%nat
  then ascii_of_nat (n + 32)
  else c.

Fixpoint toLowerCase (s : string) : string :=
  match s with
  | String c s' => String (lower_char c) (toLowerCase s')
  | EmptyString => EmptyString
  end.

Definition filteredOptions (options : list string) (searchTerm : string)
  : list string :=
  filter (fun opt => includes (toLowerCase searchTerm) (toLowerCase opt))
         options.

(** ** App.tsx: the scale of [HorizontalBarChart] *)

(** A number or minus infinity, which [Math.max] answers without
    arguments. *)
Inductive extended : Type :=
| MinusInfinity
| Finite (n : number).

(** [Math.max(...values)]: NaN as soon as one argument is NaN. *)
Definition Math_max (values : list number) : extended :=
  fold_left
    (fun best v =>
       match best, v with
       | MinusInfinity, _ => Finite v
       | Finite (Int x), Int y => Finite (Int (Z.max x y))
       | Finite _, _ => Finite NaN
       end)
    values MinusInfinity.

(** [Math.max(...data.map(d => d[valueKey]))] *)
Definition maxValue (data : list AQIRecord) (valueKey : pollutantType)
  : extended :=
  Math_max (map (fun d => field d valueKey) data).

(** * Notions of the specification *)

(** ** Colour tokens of the six buckets *)

Definition color_token (b : bucket) : string :=
  match b with
  | Good => "#4ade80"
  | Moderate => "#facc15"
  | UnhealthySensitive => "#fb923c"
  | Unhealthy => "#f87171"
  | VeryUnhealthy => "#a78bfa"
  | Hazardous => "#881337"
  end.

(** ** CSV texts *)

(** [pieces.join(sep)] *)
Fixpoint join (sep : ascii) (pieces : list string) : string :=
  match pieces with
  | [] => EmptyString
  | [piece] => piece
  | piece :: rest => piece ++ String sep (join sep rest)
  end.

(** The text of a table: a header line, then one line per row, the fields
    of a line separated by commas and the lines by line feeds. *)
Definition csv_text (header : list string) (rows : list (list string))
  : string :=
  join LF (map (join comma) (header :: rows)).

Fixpoint occurs (c : ascii) (s : string) : bool :=
  match s with
  | String c' s' => Ascii.eqb c' c || occurs c s'
  | EmptyString => false
  end.

(** A field with no embedded comma and no line break. *)
Definition plain (fld : string) : Prop :=
  occurs comma fld = false /\ occurs LF fld = false.

(** A well-formed table: plain fields, every row as wide as the header. *)
Definition well_formed (header : list string) (rows : list (list string))
  : Prop :=
  Forall plain header /\
  Forall (fun row => length row = length header /\ Forall plain row) rows.

Fixpoint all_white_space (s : string) : bool :=
  match s with
  | String c s' => is_white_space c && all_white_space s'
  | EmptyString => true
  end.

Definition first_char (s : string) : option ascii :=
  match s with
  | String c _ => Some c
  | EmptyString => None
  end.

Fixpoint last_char (s : string) : option ascii :=
  match s with
  | String c EmptyString => Some c
  | String _ s' => last_char s'
  | EmptyString => None
  end.

Definition white (c : option ascii) : bool :=
  match c with
  | Some c => is_white_space c
  | None => false
  end.

(** A text that neither begins nor ends with white space. *)
Definition bare (s : string) : Prop :=
  white (first_char s) = false /\ white (last_char s) = false.

(** The typed value of a cell under a header: the base-10 integer parse
    when the header name contains "Value", the text otherwise. *)
Definition typed (header cell : string) : jsval :=
  if includes "Value" header then VNum (parseInt cell) else VStr cell.

(** Column [j] is the last one that carries its header name. *)
Definition last_named (headers : list string) (j : nat) : Prop :=
  forall j', (j < j')%nat -> nth_error headers j' <> nth_error headers j.

(** Writing one cell, paired with its header, into a record. *)
Definition set_typed (rec : object jsval) (hc : string * string)
  : object jsval :=
  assign rec (fst hc) (typed (fst hc) (snd hc)).

(** The record of a row, field by field. *)
Definition row_record (headers row : list string) : object jsval :=
  fold_left set_typed (combine headers row) [].

(** The header and the data rows of a text, as the parser cuts them. *)
Definition csv_lines (csv : string) : list string := split LF (trim csv).

Definition csv_headers (csv : string) : list string :=
  split comma (hd EmptyString (csv_lines csv)).

Definition csv_rows (csv : string) : list (list string) :=
  map (split comma) (tl (csv_lines csv)).

(** A row with as many fields as the header. *)
Definition full_width (headers row : list string) : bool :=
  (length row =? length headers)%nat.

(** A numeral without its sign. *)
Definition unsigned_part (s : string) : string :=
  match s with
  | String "-"%char rest => rest
  | String "+"%char rest => rest
  | _ => s
  end.

(** A cell on which base-10 integer parsing fails: after leading white
    space and one optional sign there is no decimal digit. *)
Definition digitless (cell : string) : Prop :=
  match first_char (unsigned_part (trimStart cell)) with
  | Some c => digit_of c = None
  | None => True
  end.

(** [parseCSV] reads [csv] as the table of [header] and [rows]: it returns
    one record per row, in row order, and the record of a row holds under
    each header name other than [__proto__] the typed cell of the row in
    the column of that name (the last such column, should a name be
    repeated) and nothing under any other name. *)
Definition parsed_as (csv : string) (header : list string)
    (rows : list (list string)) : Prop :=
  exists records : list (object jsval),
    parseCSV csv = Ok records /\
    length records = length rows /\
    forall (i : nat) (row : list string),
      nth_error rows i = Some row ->
      exists rec : object jsval,
        nth_error records i = Some rec /\
        (forall (j : nat) (h c : string),
            nth_error header j = Some h ->
            nth_error row j = Some c ->
            last_named header j ->
            h <> "__proto__" ->
            get rec h = Some (typed h c)) /\
        (forall h : string,
            ~ In h header \/ h = "__proto__" -> get rec h = None).

(** [parseCSV] returns normally and the record of [row] is among the
    records returned with NaN under the header name [h]: the record holds
    the typed cell of every column that is the last of its name, and a
    field for each header name, [__proto__] apart, and for nothing else. *)
Definition keeps_sentinel (csv : string) (row : list string) (h : string)
  : Prop :=
  exists (records : list (object jsval)) (rec : object jsval),
    parseCSV csv = Ok records /\
    In rec records /\
    get rec h = Some (VNum NaN) /\
    (forall j' h' c',
        nth_error (csv_headers csv) j' = Some h' ->
        nth_error row j' = Some c' ->
        last_named (csv_headers csv) j' ->
        h' <> "__proto__" ->
        get rec h' = Some (typed h' c')) /\
    (forall h',
        get rec h' = None
        <-> ~ In h' (csv_headers csv) \/ h' = "__proto__").

(** ** Plain keys *)

(** The names every object literal inherits from [Object.prototype]:
    reading one of them from a dictionary that does not hold it gives the
    inherited value, not [undefined], and writing [__proto__] stores
    nothing. *)
Definition Object_prototype_names : list string :=
  [ "constructor"; "hasOwnProperty"; "isPrototypeOf"; "propertyIsEnumerable";
    "toLocaleString"; "toString"; "valueOf"; "__proto__";
    "__defineGetter__"; "__defineSetter__"; "__lookupGetter__";
    "__lookupSetter__" ].

(** A key on which a dictionary built from [{}] behaves as a finite map. *)
Definition own_name (k : string) : Prop := ~ In k Object_prototype_names.

(** A key that is moreover listed at its place of insertion: an array
    index is a decimal numeral, which [Object.entries] lists before the
    other keys, and a key that does not begin with a digit is none. *)
Definition plain_key (k : string) : Prop :=
  own_name k /\
  match first_char k with
  | Some c => digit_of c = None
  | None => True
  end.

(** ** Means and rounding *)

Definition sum_Z (zs : list Z) : Z := fold_right Z.add 0 zs.

Definition mean (zs : list Z) : Q :=
  (inject_Z (sum_Z zs) / inject_Z (Z.of_nat (length zs)))%Q.

(** [r] is an integer closest to [q]. *)
Definition nearest_integer (q : Q) (r : Z) : Prop :=
  forall k : Z, (Qabs (inject_Z r - q) <= Qabs (inject_Z k - q))%Q.

Definition integer_of (n : number) : Z :=
  match n with
  | Int z => z
  | NaN => 0
  end.

Definition is_integer (n : number) : Prop :=
  match n with
  | Int _ => True
  | NaN => False
  end.

(** The values of a key over a sequence of records. *)
Definition column (k : pollutantType) (data : list AQIRecord) : list Z :=
  map (fun d => integer_of (field d k)) data.

Definition integer_column (k : pollutantType) (data : list AQIRecord) : Prop :=
  Forall (fun d => is_integer (field d k)) data.

(** Integers on which the sum and the mean are computed without rounding
    in binary64: the absolute values and the length add up to less than
    2^52.  Every partial sum then stays below 2^53 and is exact; and
    between the quotient [s / n] and the next half-integer [h] there is at
    least [1 / (2 n)], more than half the spacing of the doubles around
    [h] since [n * |h| <= |s| + n < 2^52], so the rounded quotient falls on
    the same side of [h] and [Math.round] gives the integer it gives for
    the exact quotient. *)
Definition within_doubles (zs : list Z) : Prop :=
  sum_Z (map Z.abs zs) + Z.of_nat (length zs) < 2 ^ 52.

(** ** Rankings *)

(** Adjacent elements never increase. *)
Fixpoint descending (zs : list Z) : Prop :=
  match zs with
  | x :: (y :: _) as rest => y <= x /\ descending rest
  | _ => True
  end.

(** The comparator [(a, b) => key(b) - key(a)] on integer keys. *)
Definition by_key_descending {A : Type} (key : A -> Z) (x y : A) : number :=
  Int (key y - key x).

(** [l1] is an initial segment of [l2]. *)
Definition prefix_of {A : Type} (l1 l2 : list A) : Prop :=
  exists rest, l2 = l1 ++ rest.

(** The records of a sequence whose key has the value [v], in order. *)
Definition tied (k : pollutantType) (v : Z) (data : list AQIRecord)
  : list AQIRecord :=
  filter (fun d => integer_of (field d k) =? v) data.

(** ** Category counts *)

Definition occurrences (category : string) (countryData : list AQIRecord)
  : nat :=
  count_occ string_dec (map AQI_Category countryData) category.

Definition sum_numbers (ns : list number) : number :=
  fold_right num_add (Int 0) ns.

(** What [counts] holds once the records [processed] have been visited. *)
Definition counted (processed : list AQIRecord) (counts : object number)
  : Prop :=
  NoDup (keys counts) /\
  (forall category,
      get counts category
      = if (occurrences category processed =? 0)%nat then None
        else Some (Int (Z.of_nat (occurrences category processed)))) /\
  sum_numbers (map snd counts) = Int (Z.of_nat (length processed)).

(** ** Further notions *)

(** A text with no line feed left once it is trimmed: a header at most. *)
Definition header_only (csv : string) : Prop := occurs LF (trim csv) = false.

(** What [stats] holds for a country whose records are [group]. *)
Definition group_stat (group : list AQIRecord) : Map.stat :=
  Map.mkStat
    (fold_left (fun acc d => num_add acc (AQI_Value d)) group (Int 0))
    (length_number group)
    group.

(** What visiting [record] makes of the statistics [s] of its country. *)
Definition visited (s : Map.stat) (record : AQIRecord) : Map.stat :=
  Map.mkStat (num_add (Map.totalAQI s) (AQI_Value record))
             (num_add (Map.count s) (Int 1))
             (Map.cities s ++ [record]).

(** What [stats] holds once the records [processed] have been visited. *)
Definition grouped (processed : list AQIRecord) (stats : object Map.stat)
  : Prop :=
  NoDup (keys stats) /\
  keys stats = Set_from (map Country processed) /\
  forall c, In c (keys stats) ->
            get stats c = Some (group_stat (countryData processed c)).

(** The entry of a country computed from its records alone. *)
Definition group_entry (c : string) (group : list AQIRecord) : Map.entry :=
  {| Map.country := c;
     Map.avgAQI := getAverageAQI group;
     Map.cityCount := length_number group;
     Map.topCities :=
       slice0 3 (sort (fun a b => num_sub (AQI_Value b) (AQI_Value a)) group) |}.

(** The bounds a legend range spells out: "low-high", or "low+" with no
    upper bound. *)
Definition range_bounds (range : string) : number * option number :=
  match split "-"%char range with
  | [low; high] => (parseInt low, Some (parseInt high))
  | _ => (parseInt range, None)
  end.

Definition in_range (range : string) (aqi : Z) : bool :=
  let (low, high) := range_bounds range in
  num_le low (Int aqi) &&
  match high with
  | Some high => num_le (Int aqi) high
  | None => true
  end.

(** Each string comes before the next one, code unit by code unit. *)
Fixpoint ascending (l : list string) : Prop :=
  match l with
  | x :: (y :: _) as rest => String.compare x y = Lt /\ ascending rest
  | _ => True
  end.

(** The labels [InsightCard] counts as unhealthy. *)
Definition unhealthy_label (category : string) : bool :=
  existsb (String.eqb category)
    ["Unhealthy"; "Very Unhealthy"; "Hazardous";
     "Unhealthy for Sensitive Groups"].

(** ** Sample data *)

(** A record of the dataset; the four pollutant categories are not used by
    any aggregate and are left at "Good". *)
Definition sample (country city : string) (aqi : Z) (category : string)
    (co ozone no2 pm25 : Z) : AQIRecord :=
  {| Country := country; City := city;
     AQI_Value := Int aqi; AQI_Category := category;
     CO_AQI_Value := Int co; CO_AQI_Category := "Good";
     Ozone_AQI_Value := Int ozone; Ozone_AQI_Category := "Good";
     NO2_AQI_Value := Int no2; NO2_AQI_Category := "Good";
     PM25_AQI_Value := Int pm25; PM25_AQI_Category := "Good" |}.

Definition sample_X1 : AQIRecord := sample "X" "Alpha" 10 "Good" 1 5 0 10.
Definition sample_X2 : AQIRecord := sample "X" "Beta" 20 "Good" 2 7 3 20.
Definition sample_X3 : AQIRecord := sample "X" "Gamma" 170 "Unhealthy" 4 30 9 170.
Definition sample_X4 : AQIRecord := sample "X" "Delta" 10 "Good" 3 6 2 10.

(** A two-column table whose last cell ends with a space. *)
Definition sample_header : list string := ["City"; "Note"].
Definition sample_rows : list (list string) := [["Paris"; "ok "]].

(** A text with a short row, a long row and a cell that is not a number. *)
Definition sample_csv : string :=
  join LF ["City,AQI Value"; "Paris,41"; "Oslo"; "Rome,n/a"; "Lima,88,x"; "Kyiv,57"].

(** A text whose two columns carry the same header name. *)
Definition sample_repeated_csv : string := join LF ["Value,Value"; "x,5"].

Definition sample_Y1 : AQIRecord := sample "Y" "Omega" 60 "Moderate" 2 9 4 60.

(** Records of two countries, X first. *)
Definition sample_data : list AQIRecord :=
  [sample_X1; sample_Y1; sample_X3; sample_X4].

(** * Properties *)

(** ** Colour and health buckets *)

(** Splits on every threshold test of an integer argument. *)
Ltac threshold_cases :=
  cbv beta iota delta [getColorForAQI getHealthImplications bucket_of num_le];
  repeat match goal with
         | |- context [?a <=? ?b] => destruct (Z.leb_spec a b)
         end.

Lemma bucket_color_token (b : bucket) : bucket_color b = Some (color_token b).
Proof. destruct b; reflexivity. Qed.

Lemma getColorForAQI_bucket (aqi : Z) :
  getColorForAQI (Int aqi) = bucket_color (bucket_of aqi).
Proof. threshold_cases; reflexivity. Qed.

Lemma bucket_of_bounds (aqi : Z) :
  match bucket_of aqi with
  | Good => aqi <= 50
  | Moderate => 50 < aqi <= 100
  | UnhealthySensitive => 100 < aqi <= 150
  | Unhealthy => 150 < aqi <= 200
  | VeryUnhealthy => 200 < aqi <= 300
  | Hazardous => 300 < aqi
  end.
Proof. threshold_cases; lia. Qed.

(** C1.  For every integer [aqi], [getColorForAQI] answers by the inclusive
    upper bounds 50, 100, 150, 200 and 300: the Good colour up to 50, the
    Moderate colour up to 100, the Unhealthy-for-Sensitive-Groups colour up
    to 150, the Unhealthy colour up to 200, the Very-Unhealthy colour up to
    300 and the Hazardous colour above; 50 is Good, 51 is Moderate and 500
    is Hazardous. *)
Theorem getColorForAQI_thresholds :
  (forall aqi : Z,
      (aqi <= 50 /\ getColorForAQI (Int aqi) = Some "#4ade80") \/
      (50 < aqi <= 100 /\ getColorForAQI (Int aqi) = Some "#facc15") \/
      (100 < aqi <= 150 /\ getColorForAQI (Int aqi) = Some "#fb923c") \/
      (150 < aqi <= 200 /\ getColorForAQI (Int aqi) = Some "#f87171") \/
      (200 < aqi <= 300 /\ getColorForAQI (Int aqi) = Some "#a78bfa") \/
      (300 < aqi /\ getColorForAQI (Int aqi) = Some "#881337")) /\
  (forall b : bucket, get CategoryColors (AQICategory b) = Some (color_token b)) /\
  getColorForAQI (Int 50) = Some (color_token Good) /\
  getColorForAQI (Int 51) = Some (color_token Moderate) /\
  getColorForAQI (Int 500) = Some (color_token Hazardous).
Proof.
  split; [| split; [exact bucket_color_token | repeat split]].
  intro aqi.
  rewrite getColorForAQI_bucket.
  pose proof (bucket_of_bounds aqi) as Hb.
  destruct (bucket_of aqi); cbn; tauto.
Qed.

Lemma color_index_of_bucket (b : bucket) :
  color_bucket_index (bucket_color b) = Some (bucket_index b).
Proof. destruct b; reflexivity. Qed.

Lemma getHealthImplications_bucket (aqi : Z) :
  health_bucket_index (getHealthImplications (Int aqi))
  = Some (bucket_index (bucket_of aqi)).
Proof. threshold_cases; reflexivity. Qed.

Lemma bucket_agreement (aqi : Z) :
  color_bucket_index (getColorForAQI (Int aqi))
  = health_bucket_index (getHealthImplications (Int aqi)).
Proof.
  rewrite getColorForAQI_bucket, color_index_of_bucket.
  symmetry; apply getHealthImplications_bucket.
Qed.

Lemma color_tokens_distinct : NoDup color_tokens.
Proof.
  unfold color_tokens; cbn.
  repeat constructor; cbn; intuition discriminate.
Qed.

Lemma health_texts_distinct : NoDup health_texts.
Proof.
  unfold health_texts; cbn.
  repeat constructor; cbn; intuition discriminate.
Qed.

(** C2.  For every integer in [0, 500] the colour that [getColorForAQI]
    returns and the impact and advice that [getHealthImplications] returns
    belong to the same bucket: both sit at the index of the bucket that the
    thresholds 50, 100, 150, 200 and 300 assign, the six colours being
    distinct and the six health texts being distinct. *)
Theorem color_and_health_same_bucket (aqi : Z) :
  0 <= aqi <= 500 ->
  color_bucket_index (getColorForAQI (Int aqi))
  = health_bucket_index (getHealthImplications (Int aqi)) /\
  health_bucket_index (getHealthImplications (Int aqi))
  = Some (bucket_index (bucket_of aqi)) /\
  NoDup color_tokens /\ NoDup health_texts.
Proof.
  intros _.
  split; [apply bucket_agreement |].
  split; [apply getHealthImplications_bucket |].
  split; [apply color_tokens_distinct | apply health_texts_distinct].
Qed.

Lemma color_and_health_same_bucket_witness :
  0 <= 150 <= 500 /\
  color_bucket_index (getColorForAQI (Int 150))
  = health_bucket_index (getHealthImplications (Int 150)).
Proof.
  split; [lia |].
  apply (color_and_health_same_bucket 150); lia.
Defined.

Lemma getColorForAQI_negative (aqi : Z) :
  aqi < 0 -> getColorForAQI (Int aqi) = bucket_color Good.
Proof.
  intro H. rewrite getColorForAQI_bucket.
  pose proof (bucket_of_bounds aqi) as Hb.
  destruct (bucket_of aqi); (reflexivity || lia).
Qed.

(** C10.  [getColorForAQI] answers for every integer, negative ones
    included, with one of the six colour tokens of the colour table, which
    has exactly six distinct tokens; every negative integer (the opposite
    of a positive one) gets the Good colour, the first test having no lower
    bound. *)
Theorem getColorForAQI_total :
  (forall aqi : Z,
      exists c, getColorForAQI (Int aqi) = Some c /\ In c color_tokens) /\
  length color_tokens = 6%nat /\
  NoDup color_tokens /\
  (forall p : positive,
      getColorForAQI (Int (Z.neg p)) = get CategoryColors "Good") /\
  get CategoryColors "Good" = Some "#4ade80".
Proof.
  split; [| split; [reflexivity | split; [apply color_tokens_distinct |]]].
  - intro aqi. rewrite getColorForAQI_bucket.
    exists (color_token (bucket_of aqi)). split.
    + apply bucket_color_token.
    + destruct (bucket_of aqi); cbn; tauto.
  - split; [| reflexivity].
    intro p. apply getColorForAQI_negative. lia.
Qed.

(** ** Rounded means *)

Lemma inject_Z_succ_le (a b : Z) :
  a + 1 <= b -> (inject_Z a + 1 <= inject_Z b)%Q.
Proof.
  intro H. rewrite Zle_Qle, inject_Z_plus in H.
  change (inject_Z 1) with 1%Q in H. exact H.
Qed.

(** Adding one half and taking the floor lands on a closest integer. *)
Lemma Qfloor_half_nearest (q : Q) : nearest_integer q (Qfloor (q + (1 # 2))).
Proof.
  intro k.
  pose proof (Qfloor_le (q + (1 # 2))) as Hlo.
  pose proof (Qlt_floor (q + (1 # 2))) as Hhi.
  rewrite inject_Z_plus in Hhi. change (inject_Z 1) with 1%Q in Hhi.
  set (r := Qfloor (q + (1 # 2))) in *. clearbody r.
  assert (Hr : (Qabs (inject_Z r - q) <= 1 # 2)%Q)
    by (apply Qabs_Qle_condition; split; lra).
  destruct (Z.lt_trichotomy k r) as [Hk | [Hk | Hk]].
  - assert (Hk' : (inject_Z k + 1 <= inject_Z r)%Q)
      by (apply inject_Z_succ_le; lia).
    eapply Qle_trans; [exact Hr |].
    eapply Qle_trans; [| rewrite <- Qabs_opp; apply Qle_Qabs]. lra.
  - subst k. apply Qle_refl.
  - assert (Hk' : (inject_Z r + 1 <= inject_Z k)%Q)
      by (apply inject_Z_succ_le; lia).
    eapply Qle_trans; [exact Hr |].
    eapply Qle_trans; [| apply Qle_Qabs]. lra.
Qed.

(** The [reduce] of [getAverageAQI] and the sums of [pollutantAverages]
    add integers exactly. *)
Lemma fold_num_add (f : AQIRecord -> number) (data : list AQIRecord) :
  Forall (fun d => is_integer (f d)) data ->
  forall a : Z,
    fold_left (fun acc curr => num_add acc (f curr)) data (Int a)
    = Int (a + sum_Z (map (fun d => integer_of (f d)) data)).
Proof.
  unfold sum_Z.
  induction 1 as [| d data Hd _ IH]; intro a; cbn.
  - f_equal; lia.
  - destruct (f d) as [z |]; [| contradiction]. cbn.
    rewrite IH. f_equal; lia.
Qed.

Lemma round_of_quotient (zs : list Z) :
  zs <> [] ->
  Math_round (num_div (Int (sum_Z zs)) (Int (Z.of_nat (length zs))))
  = Int (Qfloor (mean zs + (1 # 2))).
Proof.
  intro Hne. unfold num_div.
  destruct (Z.eqb_spec (Z.of_nat (length zs)) 0) as [E | _]; [| reflexivity].
  destruct zs; [contradiction | discriminate].
Qed.

Lemma column_length (k : pollutantType) (data : list AQIRecord) :
  length (column k data) = length data.
Proof. apply length_map. Qed.

Lemma column_nonempty (k : pollutantType) (data : list AQIRecord) :
  data <> [] -> column k data <> [].
Proof. destruct data; [contradiction | discriminate]. Qed.

(** The rounded mean of one key, as both averaging functions compute it. *)
Lemma rounded_mean_of_key (k : pollutantType) (data : list AQIRecord) :
  data <> [] ->
  integer_column k data ->
  Math_round
    (num_div (fold_left (fun acc curr => num_add acc (field curr k)) data (Int 0))
             (length_number data))
  = Int (Qfloor (mean (column k data) + (1 # 2))).
Proof.
  intros Hne Hint.
  rewrite (fold_num_add (fun d => field d k) data Hint 0).
  unfold length_number. rewrite <- (column_length k data).
  rewrite Z.add_0_l. apply round_of_quotient, column_nonempty, Hne.
Qed.

(** C5.  [getAverageAQI] returns 0 for the empty sequence; for a non-empty
    sequence of records with integer "AQI Value" fields, small enough for
    doubles to add and divide them without rounding, it returns an integer
    closest to the arithmetic mean of those fields; for two records with
    the values 10 and 20 it returns 15. *)
Theorem getAverageAQI_rounded_mean (data : list AQIRecord) :
  integer_column key_AQI_Value data ->
  within_doubles (column key_AQI_Value data) ->
  getAverageAQI [] = Int 0 /\
  (data <> [] ->
   exists r : Z,
     getAverageAQI data = Int r /\
     nearest_integer (mean (column key_AQI_Value data)) r) /\
  (column key_AQI_Value data = [10; 20] -> getAverageAQI data = Int 15).
Proof.
  intros Hint _.
  assert (Hmean : data <> [] ->
            getAverageAQI data
            = Int (Qfloor (mean (column key_AQI_Value data) + (1 # 2)))).
  { intro Hne. unfold getAverageAQI.
    destruct data as [| d data']; [contradiction |].
    change (length (d :: data') =? 0)%nat with false. cbv iota.
    apply (rounded_mean_of_key key_AQI_Value); assumption. }
  split; [reflexivity | split].
  - intro Hne. eexists. split; [apply Hmean, Hne |].
    apply Qfloor_half_nearest.
  - intro Hcol. rewrite Hmean.
    + rewrite Hcol. reflexivity.
    + intros ->. discriminate.
Qed.

Lemma getAverageAQI_rounded_mean_witness :
  integer_column key_AQI_Value [sample_X1; sample_X2] /\
  getAverageAQI [sample_X1; sample_X2] = Int 15 /\
  exists r : Z,
    getAverageAQI [sample_X1; sample_X2] = Int r /\
    nearest_integer (mean (column key_AQI_Value [sample_X1; sample_X2])) r.
Proof.
  assert (H : integer_column key_AQI_Value [sample_X1; sample_X2])
    by (repeat constructor).
  assert (Hsmall : within_doubles (column key_AQI_Value [sample_X1; sample_X2]))
    by (vm_compute; reflexivity).
  destruct (getAverageAQI_rounded_mean [sample_X1; sample_X2] H Hsmall)
    as (_ & Hmean & Hexample).
  split; [exact H | split].
  - apply Hexample. reflexivity.
  - apply Hmean. discriminate.
Defined.

(** Each running sum of [pollutantAverages] is the sum of its own key. *)
Lemma sums_by_key (data : list AQIRecord) (s : Sums) :
  let sums :=
    fold_left
      (fun sums d =>
         {| sum_Total_AQI := num_add (sum_Total_AQI sums) (AQI_Value d);
            sum_PM25 := num_add (sum_PM25 sums) (PM25_AQI_Value d);
            sum_CO := num_add (sum_CO sums) (CO_AQI_Value d);
            sum_NO2 := num_add (sum_NO2 sums) (NO2_AQI_Value d);
            sum_Ozone := num_add (sum_Ozone sums) (Ozone_AQI_Value d) |})
      data s in
  let total (k : pollutantType) (start : number) :=
    fold_left (fun acc curr => num_add acc (field curr k)) data start in
  sum_Total_AQI sums = total key_AQI_Value (sum_Total_AQI s) /\
  sum_PM25 sums = total key_PM25_AQI_Value (sum_PM25 s) /\
  sum_CO sums = total key_CO_AQI_Value (sum_CO s) /\
  sum_NO2 sums = total key_NO2_AQI_Value (sum_NO2 s) /\
  sum_Ozone sums = total key_Ozone_AQI_Value (sum_Ozone s).
Proof.
  revert s. induction data as [| d data IH]; intro s; cbn zeta.
  - repeat split.
  - cbn [fold_left]. apply IH.
Qed.

(** C8.  The pollutant profile of the empty subset is the empty sequence;
    for a non-empty subset with integer fields, small enough for doubles
    to add and divide them without rounding, it is the five pairs labelled
    Total, PM2.5, CO, NO2 and Ozone, in that order, each value an integer
    closest to the mean of its field over the subset. *)
Theorem pollutantAverages_profile (countryData : list AQIRecord) :
  (forall k : pollutantType, integer_column k countryData) ->
  (forall k : pollutantType, within_doubles (column k countryData)) ->
  pollutantAverages [] = [] /\
  (countryData <> [] ->
   exists total pm25 co no2 ozone : Z,
     pollutantAverages countryData
     = [ ("Total", Int total); ("PM2.5", Int pm25); ("CO", Int co);
         ("NO2", Int no2); ("Ozone", Int ozone) ] /\
     nearest_integer (mean (column key_AQI_Value countryData)) total /\
     nearest_integer (mean (column key_PM25_AQI_Value countryData)) pm25 /\
     nearest_integer (mean (column key_CO_AQI_Value countryData)) co /\
     nearest_integer (mean (column key_NO2_AQI_Value countryData)) no2 /\
     nearest_integer (mean (column key_Ozone_AQI_Value countryData)) ozone).
Proof.
  intros Hint _. split; [reflexivity |]. intro Hne.
  unfold pollutantAverages.
  destruct countryData as [| d data'] eqn:E; [contradiction |].
  change (length (d :: data') =? 0)%nat with false. cbv iota zeta.
  rewrite <- E in *. clear E.
  destruct (sums_by_key countryData (mkSums (Int 0) (Int 0) (Int 0) (Int 0) (Int 0)))
    as (-> & -> & -> & -> & ->).
  cbn [sum_Total_AQI sum_PM25 sum_CO sum_NO2 sum_Ozone].
  rewrite !rounded_mean_of_key by auto.
  do 5 eexists. split; [reflexivity |].
  repeat split; apply Qfloor_half_nearest.
Qed.

Lemma pollutantAverages_profile_witness :
  (forall k : pollutantType, integer_column k [sample_X1; sample_X3]) /\
  [sample_X1; sample_X3] <> [] /\
  exists total pm25 co no2 ozone : Z,
    pollutantAverages [sample_X1; sample_X3]
    = [ ("Total", Int total); ("PM2.5", Int pm25); ("CO", Int co);
        ("NO2", Int no2); ("Ozone", Int ozone) ].
Proof.
  assert (H : forall k : pollutantType, integer_column k [sample_X1; sample_X3])
    by (intros []; repeat constructor).
  assert (Hne : [sample_X1; sample_X3] <> []) by discriminate.
  assert (Hsmall : forall k : pollutantType,
             within_doubles (column k [sample_X1; sample_X3]))
    by (intros []; vm_compute; reflexivity).
  split; [exact H | split; [exact Hne |]].
  destruct (proj2 (pollutantAverages_profile [sample_X1; sample_X3] H Hsmall)
              Hne)
    as (total & pm25 & co & no2 & ozone & Heq & _).
  exists total, pm25, co, no2, ozone. exact Heq.
Defined.

(** ** Dictionaries *)

Section ObjectFacts.
Context {V : Type}.
Implicit Types (o : object V) (k : string) (v : V).

Lemma get_set_same o k v : get (set o k v) k = Some v.
Proof.
  induction o as [| [k' v'] o IH]; cbn.
  - now rewrite String.eqb_refl.
  - destruct (String.eqb_spec k k') as [-> | Hne]; cbn.
    + now rewrite String.eqb_refl.
    + destruct (String.eqb_spec k k'); [contradiction | exact IH].
Qed.

Lemma get_set_other o k k' v : k' <> k -> get (set o k v) k' = get o k'.
Proof.
  intro Hne. induction o as [| [k0 v0] o IH]; cbn.
  - destruct (String.eqb_spec k' k); [contradiction | reflexivity].
  - destruct (String.eqb_spec k k0) as [-> | Hk]; cbn.
    + destruct (String.eqb_spec k' k0); [contradiction | reflexivity].
    + now rewrite IH.
Qed.

Lemma get_none_keys o k : get o k = None <-> ~ In k (keys o).
Proof.
  induction o as [| [k' v'] o IH]; cbn.
  - tauto.
  - destruct (String.eqb_spec k k') as [-> | Hne].
    + split; [discriminate | tauto].
    + rewrite IH. split; [intros H [E | H'] | intros H H'].
      * now symmetry in E.
      * contradiction.
      * apply H; now right.
Qed.

Lemma keys_set o k v :
  keys (set o k v)
  = match get o k with Some _ => keys o | None => keys o ++ [k] end.
Proof.
  unfold keys. induction o as [| [k' v'] o IH]; cbn.
  - reflexivity.
  - destruct (String.eqb_spec k k') as [-> | Hne]; cbn.
    + reflexivity.
    + rewrite IH. now destruct (get o k).
Qed.

Lemma keys_set_nodup o k v : NoDup (keys o) -> NoDup (keys (set o k v)).
Proof.
  intro Hnd. rewrite keys_set.
  destruct (get o k) eqn:E; [exact Hnd |].
  apply get_none_keys in E.
  apply NoDup_app; [exact Hnd | repeat constructor; intros [] |].
  intros x Hx [<- | []]. contradiction.
Qed.

Lemma get_some_in o k v : get o k = Some v -> In (k, v) o.
Proof.
  induction o as [| [k' v'] o IH]; cbn; [discriminate |].
  destruct (String.eqb_spec k k') as [-> | Hne].
  - intros [= ->]. now left.
  - intro H. right. now apply IH.
Qed.

Lemma in_get_some o k v : NoDup (keys o) -> In (k, v) o -> get o k = Some v.
Proof.
  induction o as [| [k' v'] o IH]; cbn; [contradiction |].
  intros Hnd [[= -> ->] | Hin].
  - now rewrite String.eqb_refl.
  - inversion Hnd as [| ? ? Hnot Hnd']; subst.
    destruct (String.eqb_spec k k') as [-> | Hne].
    + exfalso. apply Hnot. unfold keys.
      change k' with (fst (k', v)). now apply in_map.
    + now apply IH.
Qed.
End ObjectFacts.

(** ** Category distribution *)

Lemma occurrences_snoc (category : string) (l : list AQIRecord) (d : AQIRecord) :
  occurrences category (l ++ [d])
  = (occurrences category l
     + if string_dec (AQI_Category d) category then 1 else 0)%nat.
Proof.
  unfold occurrences. rewrite map_app, count_occ_app. cbn.
  now destruct (string_dec (AQI_Category d) category).
Qed.

Lemma sum_after_increment (counts : object number) (k : string) (n : Z) :
  sum_numbers (map snd counts) = Int n ->
  sum_numbers
    (map snd (set counts k (num_add (or_zero (get counts k)) (Int 1))))
  = Int (n + 1).
Proof.
  unfold sum_numbers.
  revert n. induction counts as [| [k' v'] counts IH]; intros n; cbn.
  - intros [= <-]. reflexivity.
  - intro H.
    destruct v' as [a |]; [| discriminate H].
    destruct (fold_right num_add (Int 0) (map snd counts)) as [b |] eqn:Eb;
      [| discriminate H].
    injection H as <-.
    destruct (String.eqb_spec k k') as [-> | Hne]; cbn.
    + rewrite Eb. cbn. f_equal; lia.
    + rewrite (IH b eq_refl). cbn. f_equal; lia.
Qed.

Lemma counted_step (l : list AQIRecord) (counts : object number) (d : AQIRecord) :
  counted l counts ->
  counted (l ++ [d])
    (set counts (AQI_Category d)
       (num_add (or_zero (get counts (AQI_Category d))) (Int 1))).
Proof.
  intros (Hnd & Hget & Hsum). repeat split.
  - now apply keys_set_nodup.
  - intro category. rewrite occurrences_snoc.
    destruct (string_dec (AQI_Category d) category) as [<- | Hne].
    + rewrite get_set_same, Hget.
      destruct (Nat.eqb_spec (occurrences (AQI_Category d) l) 0) as [E | E].
      * rewrite E. reflexivity.
      * destruct (Nat.eqb_spec (occurrences (AQI_Category d) l + 1) 0);
          [lia |]. cbn. do 2 f_equal. lia.
    + rewrite get_set_other by congruence.
      rewrite Nat.add_0_r. apply Hget.
  - rewrite (sum_after_increment _ _ _ Hsum), length_app. cbn.
    f_equal. lia.
Qed.

Lemma counted_fold (rest l : list AQIRecord) (counts : object number) :
  counted l counts ->
  counted (l ++ rest)
    (fold_left
       (fun counts d =>
          set counts (AQI_Category d)
            (num_add (or_zero (get counts (AQI_Category d))) (Int 1)))
       rest counts).
Proof.
  revert l counts. induction rest as [| d rest IH]; intros l counts H; cbn.
  - now rewrite app_nil_r.
  - replace (l ++ d :: rest) with ((l ++ [d]) ++ rest)
      by now rewrite <- app_assoc.
    apply IH, counted_step, H.
Qed.

Lemma category_counts_counted (countryData : list AQIRecord) :
  counted countryData (category_counts countryData).
Proof.
  apply (counted_fold countryData [] []).
  split; [constructor | split; [| reflexivity]].
  intro category. reflexivity.
Qed.

Lemma occurrences_positive (category : string) (l : list AQIRecord) :
  In category (map AQI_Category l) <-> (occurrences category l =? 0)%nat = false.
Proof.
  unfold occurrences. rewrite (count_occ_In string_dec).
  destruct (Nat.eqb_spec (count_occ string_dec (map AQI_Category l) category) 0);
    split; (lia || congruence || auto).
Qed.

(** C7.  The category distribution of a subset, whose categories are none
    of the names an object inherits, has one entry per distinct "AQI
    Category" text of the subset, carrying the number of records with that
    text; it has no entry for a text that does not occur and no entry with
    a zero count; its counts add up to the size of the subset. *)
Theorem categoryDist_counts (countryData : list AQIRecord) :
  Forall own_name (map AQI_Category countryData) ->
  let dist := categoryDist countryData in
  NoDup (map (fun entry => fst (fst entry)) dist) /\
  (forall category,
      In category (map AQI_Category countryData) <->
      exists color,
        In (category, Int (Z.of_nat (occurrences category countryData)), color)
           dist) /\
  (forall label value color,
      In (label, value, color) dist ->
      In label (map AQI_Category countryData) /\
      value = Int (Z.of_nat (occurrences label countryData)) /\
      value <> Int 0) /\
  sum_numbers (map (fun entry => snd (fst entry)) dist)
  = Int (Z.of_nat (length countryData)).
Proof.
  intros _.
  destruct (category_counts_counted countryData) as (Hnd & Hget & Hsum).
  assert (Hentry : forall label value color,
             In (label, value, color) (categoryDist countryData) ->
             get (category_counts countryData) label = Some value).
  { intros label value color Hin. unfold categoryDist in Hin.
    apply in_map_iff in Hin. destruct Hin as ([l v] & [= -> -> _] & Hin).
    now apply in_get_some. }
  cbv zeta. repeat split.
  - unfold categoryDist. rewrite map_map.
    erewrite map_ext; [exact Hnd |]. now intros [l v].
  - intro Hin. apply occurrences_positive in Hin.
    specialize (Hget category). rewrite Hin in Hget.
    apply get_some_in in Hget.
    eexists. unfold categoryDist. apply in_map_iff.
    eexists (_, _). split; [reflexivity | exact Hget].
  - intros [color Hin]. apply Hentry in Hin. rewrite Hget in Hin.
    apply occurrences_positive.
    now destruct (occurrences category countryData =? 0)%nat.
  - apply Hentry in H. rewrite Hget in H. apply occurrences_positive.
    now destruct (occurrences label countryData =? 0)%nat.
  - apply Hentry in H. rewrite Hget in H.
    destruct (occurrences label countryData =? 0)%nat; congruence.
  - apply Hentry in H. rewrite Hget in H.
    destruct (Nat.eqb_spec (occurrences label countryData) 0) as [E | E];
      [discriminate |].
    injection H as <-. intros [= E']. lia.
  - unfold categoryDist. rewrite map_map.
    erewrite map_ext; [exact Hsum |]. now intros [l v].
Qed.

(** Discharges [own_name] and [plain_key] on a list of literal keys. *)
Ltac plain_keys :=
  repeat constructor;
  try (let H := fresh in
       intro H; cbn in H;
       repeat (destruct H as [H | H]; [discriminate H |]); exact H).

Lemma categoryDist_counts_witness :
  Forall own_name (map AQI_Category [sample_X1; sample_X3; sample_X4]) /\
  sum_numbers
    (map (fun entry => snd (fst entry))
         (categoryDist [sample_X1; sample_X3; sample_X4]))
  = Int 3.
Proof.
  assert (H : Forall own_name
                (map AQI_Category [sample_X1; sample_X3; sample_X4]))
    by plain_keys.
  split; [exact H |].
  exact (proj2 (proj2 (proj2
           (categoryDist_counts [sample_X1; sample_X3; sample_X4] H)))).
Defined.

(** ** Ranking *)

Section Sorting.
Context {A : Type}.
Implicit Types (x y : A) (l : list A) (comparefn : A -> A -> number).

Lemma sort_insert_permutation comparefn x l :
  Permutation (sort_insert comparefn x l) (x :: l).
Proof.
  induction l as [| y l IH]; cbn.
  - apply Permutation_refl.
  - destruct (is_positive (comparefn x y)).
    + rewrite IH. apply perm_swap.
    + apply Permutation_refl.
Qed.

Lemma sort_cons comparefn x l :
  sort comparefn (x :: l) = sort_insert comparefn x (sort comparefn l).
Proof. reflexivity. Qed.

Lemma sort_permutation comparefn l : Permutation (sort comparefn l) l.
Proof.
  induction l as [| x l IH].
  - apply Permutation_refl.
  - rewrite sort_cons, sort_insert_permutation. now apply perm_skip.
Qed.

(** Two comparators that agree on the elements of an array sort it alike. *)
Lemma sort_insert_ext comparefn comparefn' x l :
  (forall y, In y l -> comparefn x y = comparefn' x y) ->
  sort_insert comparefn x l = sort_insert comparefn' x l.
Proof.
  induction l as [| y l IH]; intro Hagree; cbn.
  - reflexivity.
  - rewrite (Hagree y) by now left.
    rewrite IH by (intros; apply Hagree; now right).
    reflexivity.
Qed.

Lemma sort_ext comparefn comparefn' l :
  (forall x y, In x l -> In y l -> comparefn x y = comparefn' x y) ->
  sort comparefn l = sort comparefn' l.
Proof.
  induction l as [| x l IH]; intro Hagree.
  - reflexivity.
  - rewrite !sort_cons, IH by (intros; apply Hagree; now right).
    apply sort_insert_ext. intros y Hy. apply Hagree; [now left |].
    right. eapply Permutation_in; [apply sort_permutation | exact Hy].
Qed.

(** Sorting by an integer key, greatest first. *)
Variable key : A -> Z.

Lemma descending_cons (z : Z) (zs : list Z) :
  descending (z :: zs)
  <-> match zs with [] => True | z' :: _ => z' <= z end /\ descending zs.
Proof. destruct zs; cbn; tauto. Qed.

Lemma sort_insert_descending x l :
  descending (map key l) ->
  descending (map key (sort_insert (by_key_descending key) x l)).
Proof.
  induction l as [| y l IH]; intro Hd; [exact I |].
  cbn [sort_insert by_key_descending is_positive].
  destruct (Z.ltb_spec 0 (key y - key x)) as [Hlt | Hge].
  - cbn [map] in *. apply descending_cons in Hd. destruct Hd as [Hhd Hd].
    apply descending_cons. split; [| now apply IH].
    destruct l as [| y' l]; cbn [sort_insert map]; [lia |].
    cbn [by_key_descending is_positive].
    destruct (0 <? key y' - key x); cbn [map]; [exact Hhd | lia].
  - cbn [map] in *. apply descending_cons. split; [lia | exact Hd].
Qed.

Lemma sort_descending l : descending (map key (sort (by_key_descending key) l)).
Proof.
  induction l as [| x l IH]; [exact I |].
  rewrite sort_cons. now apply sort_insert_descending.
Qed.

(** Stability: the elements with a given key keep their order. *)
Lemma sort_insert_stable (v : Z) x l :
  filter (fun d => key d =? v) (sort_insert (by_key_descending key) x l)
  = filter (fun d => key d =? v) (x :: l).
Proof.
  induction l as [| y l IH]; [reflexivity |].
  cbn [sort_insert by_key_descending is_positive].
  destruct (Z.ltb_spec 0 (key y - key x)) as [Hlt | Hge]; [| reflexivity].
  cbn [filter] in *. rewrite IH.
  destruct (Z.eqb_spec (key y) v) as [Ey | Ey]; [| reflexivity].
  destruct (Z.eqb_spec (key x) v) as [Ex | Ex]; [lia | reflexivity].
Qed.

Lemma sort_stable (v : Z) l :
  filter (fun d => key d =? v) (sort (by_key_descending key) l)
  = filter (fun d => key d =? v) l.
Proof.
  induction l as [| x l IH]; [reflexivity |].
  rewrite sort_cons, sort_insert_stable.
  cbn [filter]. now rewrite IH.
Qed.

Lemma descending_head_greatest (z : Z) (zs : list Z) :
  descending (z :: zs) -> forall z', In z' zs -> z' <= z.
Proof.
  revert z. induction zs as [| z1 zs IH]; intros z Hd z' Hin; [contradiction |].
  apply descending_cons in Hd. destruct Hd as [Hle Hd].
  destruct Hin as [<- | Hin]; [exact Hle |].
  specialize (IH z1 Hd z' Hin). lia.
Qed.

Lemma descending_split (zs1 zs2 : list Z) :
  descending (zs1 ++ zs2) ->
  forall a b, In a zs1 -> In b zs2 -> b <= a.
Proof.
  induction zs1 as [| z zs1 IH]; intros Hd a b Ha Hb; [contradiction |].
  cbn [app] in Hd. destruct Ha as [<- | Ha].
  - eapply descending_head_greatest; [exact Hd |].
    apply in_or_app. now right.
  - apply descending_cons in Hd. now apply (IH (proj2 Hd)).
Qed.

Lemma filter_firstn_prefix (p : A -> bool) (n : nat) l :
  prefix_of (filter p (firstn n l)) (filter p l).
Proof.
  exists (filter p (skipn n l)).
  now rewrite <- filter_app, firstn_skipn.
Qed.
End Sorting.

Lemma topCities_by_key (data : list AQIRecord) (k : pollutantType) :
  integer_column k data ->
  topCities data k
  = firstn 10 (sort (by_key_descending (fun d => integer_of (field d k))) data).
Proof.
  intro Hint. unfold topCities, slice0. f_equal.
  apply sort_ext. intros x y Hx Hy.
  unfold integer_column in Hint. rewrite Forall_forall in Hint.
  pose proof (Hint x Hx) as Ix. pose proof (Hint y Hy) as Iy.
  unfold by_key_descending.
  destruct (field x k), (field y k); cbn in *; (reflexivity || contradiction).
Qed.

(** C6.  For every sequence of records and each of the five pollutant keys
    (total AQI, PM2.5, CO, NO2, Ozone) holding integers, the ranking has
    min(10, input length) records, in descending order of the key; no
    record left out has a greater key than a record of the ranking; and
    the records of the ranking that share a key value are the first
    records of the input with that value, in input order. *)
Theorem topCities_ranking (data : list AQIRecord) (k : pollutantType) :
  integer_column k data ->
  let top := topCities data k in
  length top = Nat.min 10 (length data) /\
  descending (column k top) /\
  (exists rest,
      Permutation data (top ++ rest) /\
      forall x y, In x top -> In y rest ->
                  integer_of (field y k) <= integer_of (field x k)) /\
  (forall v : Z, prefix_of (tied k v top) (tied k v data)).
Proof.
  intro Hint. cbv zeta. rewrite (topCities_by_key data k Hint).
  set (key := fun d => integer_of (field d k)).
  set (sorted := sort (by_key_descending key) data).
  assert (Hperm : Permutation sorted data) by apply sort_permutation.
  assert (Hdesc : descending (map key sorted)) by apply sort_descending.
  repeat split.
  - rewrite length_firstn, (Permutation_length Hperm). reflexivity.
  - unfold column. fold key.
    rewrite <- (firstn_skipn 10 sorted), map_app in Hdesc.
    clear - Hdesc. revert Hdesc.
    generalize (map key (firstn 10 sorted)) as zs1.
    generalize (map key (skipn 10 sorted)) as zs2.
    intros zs2 zs1. induction zs1 as [| z zs1 IH]; intro Hd; [exact I |].
    cbn [app] in Hd. apply descending_cons in Hd. apply descending_cons.
    split; [| apply IH, Hd].
    destruct zs1; [exact I | apply Hd].
  - exists (skipn 10 sorted). split.
    + rewrite firstn_skipn. now symmetry.
    + intros x y Hx Hy.
      rewrite <- (firstn_skipn 10 sorted), map_app in Hdesc.
      change (key y <= key x).
      apply (descending_split _ _ Hdesc); now apply in_map.
  - intro v. unfold tied. fold key.
    eapply eq_ind; [apply (filter_firstn_prefix _ 10 sorted) |].
    apply sort_stable.
Qed.

Lemma topCities_ranking_witness :
  integer_column key_AQI_Value [sample_X1; sample_X3; sample_X4] /\
  length (topCities [sample_X1; sample_X3; sample_X4] key_AQI_Value) = 3%nat /\
  prefix_of
    (tied key_AQI_Value 10
       (topCities [sample_X1; sample_X3; sample_X4] key_AQI_Value))
    (tied key_AQI_Value 10 [sample_X1; sample_X3; sample_X4]).
Proof.
  assert (H : integer_column key_AQI_Value [sample_X1; sample_X3; sample_X4])
    by (repeat constructor).
  destruct (topCities_ranking [sample_X1; sample_X3; sample_X4]
              key_AQI_Value H) as (Hlen & _ & _ & Hties).
  split; [exact H | split; [exact Hlen | apply Hties]].
Defined.

(** Two cities tied at 10 stay in input order behind the city at 170. *)
Example topCities_ties :
  topCities [sample_X1; sample_X3; sample_X4] key_AQI_Value
  = [sample_X3; sample_X1; sample_X4].
Proof. reflexivity. Qed.

(** ** Strings *)

Lemma split_nonempty (sep : ascii) (s : string) : split sep s <> [].
Proof.
  destruct s as [| c s]; cbn; [discriminate |].
  destruct (Ascii.eqb c sep); [discriminate |].
  destruct (split sep s); discriminate.
Qed.

(** A piece free of the separator comes back whole. *)
Lemma split_free (sep : ascii) (piece : string) :
  occurs sep piece = false -> split sep piece = [piece].
Proof.
  induction piece as [| c piece IH]; cbn; [reflexivity |].
  intro H. apply orb_false_elim in H. destruct H as [Hc Hp].
  rewrite Hc, (IH Hp). reflexivity.
Qed.

Lemma split_append (sep : ascii) (piece rest : string) :
  occurs sep piece = false ->
  split sep (piece ++ String sep rest)%string = piece :: split sep rest.
Proof.
  induction piece as [| c piece IH]; cbn.
  - intros _. now rewrite Ascii.eqb_refl.
  - intro H. apply orb_false_elim in H. destruct H as [Hc Hp].
    rewrite Hc, (IH Hp). reflexivity.
Qed.

(** Splitting undoes joining, for at least one piece. *)
Lemma split_join (sep : ascii) (pieces : list string) :
  pieces <> [] ->
  Forall (fun piece => occurs sep piece = false) pieces ->
  split sep (join sep pieces) = pieces.
Proof.
  intros Hne Hfree. induction Hfree as [| piece rest Hp Hrest IH];
    [contradiction |].
  destruct rest as [| piece' rest].
  - cbn. now apply split_free.
  - change (join sep (piece :: piece' :: rest))
      with (piece ++ String sep (join sep (piece' :: rest)))%string.
    rewrite (split_append _ _ _ Hp), IH by discriminate. reflexivity.
Qed.

Lemma occurs_append (c : ascii) (s1 s2 : string) :
  occurs c (s1 ++ s2)%string = occurs c s1 || occurs c s2.
Proof.
  induction s1 as [| c1 s1 IH]; cbn; [reflexivity |].
  now rewrite IH, orb_assoc.
Qed.

(** A line joined with another separator stays free of [c]. *)
Lemma occurs_join (c sep : ascii) (pieces : list string) :
  Ascii.eqb sep c = false ->
  Forall (fun piece => occurs c piece = false) pieces ->
  occurs c (join sep pieces) = false.
Proof.
  intros Hsep Hfree. induction Hfree as [| piece rest Hp Hrest IH];
    [reflexivity |].
  destruct rest as [| piece' rest]; [exact Hp |].
  change (join sep (piece :: piece' :: rest))
    with (piece ++ String sep (join sep (piece' :: rest)))%string.
  rewrite occurs_append, Hp. cbn [occurs orb]. now rewrite Hsep, IH.
Qed.

Lemma trimStart_white (pre s : string) :
  all_white_space pre = true -> trimStart (pre ++ s)%string = trimStart s.
Proof.
  induction pre as [| c pre IH]; cbn; [reflexivity |].
  intro H. apply andb_prop in H. destruct H as [Hc Hpre].
  rewrite Hc. now apply IH.
Qed.

Lemma trimStart_bare (s : string) :
  white (first_char s) = false -> trimStart s = s.
Proof.
  destruct s as [| c s]; cbn; [reflexivity |]. now intros ->.
Qed.

Lemma trimEnd_white (post : string) :
  all_white_space post = true -> trimEnd post = EmptyString.
Proof.
  induction post as [| c post IH]; cbn; [reflexivity |].
  intro H. apply andb_prop in H. destruct H as [Hc Hpost].
  now rewrite (IH Hpost), Hc.
Qed.

Lemma trimEnd_append_white (s post : string) :
  all_white_space post = true -> trimEnd (s ++ post)%string = trimEnd s.
Proof.
  intro H. induction s as [| c s IH]; cbn.
  - now apply trimEnd_white.
  - now rewrite IH.
Qed.

Lemma trimEnd_bare (s : string) :
  white (last_char s) = false -> trimEnd s = s.
Proof.
  induction s as [| c s IH]; [reflexivity |].
  destruct s as [| c' s].
  - cbn. now intros ->.
  - intro H. change (last_char (String c (String c' s)))
      with (last_char (String c' s)) in H.
    change (trimEnd (String c (String c' s)))
      with (match trimEnd (String c' s) with
            | EmptyString =>
                if is_white_space c then EmptyString else String c EmptyString
            | r => String c r
            end).
    now rewrite (IH H).
Qed.

(** Trimming removes white space around a bare text and nothing else. *)
Lemma trim_padded (pre body post : string) :
  all_white_space pre = true ->
  all_white_space post = true ->
  bare body ->
  trim (pre ++ body ++ post)%string = body.
Proof.
  intros Hpre Hpost [Hfirst Hlast]. unfold trim.
  rewrite (trimStart_white _ _ Hpre).
  destruct body as [| c body].
  - cbn [append].
    assert (Hp : trimStart post = EmptyString).
    { clear - Hpost. induction post as [| c post IH]; [reflexivity |].
      cbn in *. apply andb_prop in Hpost. destruct Hpost as [-> Hpost].
      now apply IH. }
    now rewrite Hp.
  - rewrite trimStart_bare by exact Hfirst.
    rewrite (trimEnd_append_white _ _ Hpost).
    now apply trimEnd_bare.
Qed.

(** ** The parser *)

Lemma nth_error_skipn {A : Type} (l : list A) (i : nat) (a : A) :
  nth_error l i = Some a -> skipn i l = a :: skipn (S i) l.
Proof.
  revert i. induction l as [| b l IH]; intros [| i] H; try discriminate.
  - now injection H as ->.
  - cbn in H. apply (IH i H).
Qed.

(** On a line at least as wide as the remaining headers, the [forEach]
    sets the fields one after the other, each typed by its header. *)
Lemma forEach_header_fold (headers : list string) :
  forall (index : nat) (currentLine : list string) (record : object jsval),
    (index + length headers <= length currentLine)%nat ->
    forEach_header headers index currentLine record
    = fold_left set_typed (combine headers (skipn index currentLine)) record.
Proof.
  induction headers as [| header headers IH]; intros index currentLine record Hlen.
  - reflexivity.
  - cbn [length] in Hlen.
    destruct (nth_error currentLine index) as [cell |] eqn:E.
    + rewrite (nth_error_skipn _ _ _ E).
      cbn [forEach_header combine fold_left]. rewrite E.
      rewrite IH by lia. unfold set_typed, typed, to_string. cbn [fst snd].
      now destruct (includes "Value" header).
    + apply nth_error_None in E. lia.
Qed.

Lemma forEach_header_record (headers row : list string) :
  full_width headers row = true ->
  forEach_header headers 0 row [] = row_record headers row.
Proof.
  intro H. apply Nat.eqb_eq in H.
  rewrite forEach_header_fold by (cbn; lia). reflexivity.
Qed.

(** The loop never indexes past the end, keeps the rows as wide as the
    header and builds one record for each of them. *)
Lemma for_lines_filter (lines headers : list string) :
  forall (steps i : nat) (records : list (object jsval)),
    (i + steps = length lines)%nat ->
    for_lines lines headers steps i records
    = Ok (records ++
          map (fun row => forEach_header headers 0 row [])
              (filter (full_width headers) (map (split comma) (skipn i lines)))).
Proof.
  induction steps as [| steps IH]; intros i records Hlen.
  - rewrite skipn_all2 by lia. cbn. now rewrite app_nil_r.
  - cbn [for_lines]. unfold receiver.
    destruct (nth_error lines i) as [line |] eqn:E.
    + cbn [bind]. rewrite IH by lia.
      rewrite (nth_error_skipn _ _ _ E). cbn [map filter].
      unfold full_width at 2.
      destruct (length (split comma line) =? length headers)%nat;
        [| reflexivity].
      now rewrite <- app_assoc.
    + apply nth_error_None in E. lia.
Qed.

(** [parseCSV] returns, and returns the records of the rows that are as
    wide as the header, in row order. *)
Lemma parseCSV_rows (csv : string) :
  parseCSV csv
  = Ok (map (row_record (csv_headers csv))
            (filter (full_width (csv_headers csv)) (csv_rows csv))).
Proof.
  unfold parseCSV, csv_headers, csv_rows, csv_lines.
  destruct (split LF (trim csv)) as [| line0 lines] eqn:E.
  - now apply split_nonempty in E.
  - cbn [receiver nth_error bind hd tl length].
    rewrite for_lines_filter by (cbn; lia).
    cbn [skipn app]. f_equal.
    apply map_ext_in. intros row Hrow.
    apply filter_In in Hrow. now apply forEach_header_record.
Qed.

(** *** The fields of a record *)

Section RowRecord.
Lemma get_assign_same (rec : object jsval) (k : string) (v : jsval) :
  k <> "__proto__" -> get (assign rec k v) k = Some v.
Proof.
  intro Hk. unfold assign.
  destruct (String.eqb_spec k "__proto__"); [contradiction |].
  apply get_set_same.
Qed.

Lemma get_assign_other (rec : object jsval) (k k' : string) (v : jsval) :
  k' <> k -> get (assign rec k v) k' = get rec k'.
Proof.
  intro Hne. unfold assign.
  destruct (String.eqb k "__proto__"); [reflexivity |].
  now apply get_set_other.
Qed.

Lemma get_assign_proto (rec : object jsval) (k : string) (v : jsval) :
  get (assign rec k v) "__proto__" = get rec "__proto__".
Proof.
  unfold assign. destruct (String.eqb_spec k "__proto__") as [E | Hne];
    [reflexivity |].
  apply get_set_other. congruence.
Qed.

Lemma fold_get_untouched (cells : list (string * string)) :
  forall (rec : object jsval) (h : string),
    ~ In h (map fst cells) ->
    get (fold_left set_typed cells rec) h = get rec h.
Proof.
  induction cells as [| [h0 c0] cells IH]; intros rec h Hnot; [reflexivity |].
  cbn [fold_left]. rewrite IH by (intro; apply Hnot; now right).
  unfold set_typed. cbn [fst snd].
  apply get_assign_other. intros ->. apply Hnot. now left.
Qed.

Lemma fold_get_proto (cells : list (string * string)) :
  forall rec : object jsval,
    get (fold_left set_typed cells rec) "__proto__" = get rec "__proto__".
Proof.
  induction cells as [| [h0 c0] cells IH]; intro rec; [reflexivity |].
  cbn [fold_left]. rewrite IH. apply get_assign_proto.
Qed.

Lemma fold_get_defined (cells : list (string * string)) :
  forall (rec : object jsval) (h : string),
    h <> "__proto__" ->
    get (fold_left set_typed cells rec) h = None
    <-> get rec h = None /\ ~ In h (map fst cells).
Proof.
  induction cells as [| [h0 c0] cells IH]; intros rec h Hh;
    cbn [fold_left map In].
  - tauto.
  - rewrite (IH _ _ Hh). unfold set_typed at 1. cbn [fst snd].
    destruct (string_dec h h0) as [<- | Hne].
    + rewrite (get_assign_same _ _ _ Hh). split; [intros [[=] _] | intros [_ H]].
      exfalso. apply H. now left.
    + rewrite get_assign_other by exact Hne.
      split; intros [H1 H2]; (split; [exact H1 |]).
      * intros [E | H]; [congruence | contradiction].
      * intro H. apply H2. now right.
Qed.

Lemma fold_get_last (headers : list string) :
  forall (row : list string) (rec : object jsval) (j : nat) (h c : string),
    nth_error headers j = Some h ->
    nth_error row j = Some c ->
    last_named headers j ->
    h <> "__proto__" ->
    get (fold_left set_typed (combine headers row) rec) h = Some (typed h c).
Proof.
  induction headers as [| h0 headers IH]; intros row rec j h c Hh Hc Hlast Hp.
  - destruct j; discriminate.
  - destruct row as [| c0 row]; [destruct j; discriminate |].
    cbn [combine fold_left]. destruct j as [| j].
    + injection Hh as ->. injection Hc as ->.
      rewrite fold_get_untouched.
      * now apply get_assign_same.
      * intro Hin. apply in_map_iff in Hin.
        destruct Hin as ([h' c'] & E & Hin). cbn in E. subst h'.
        apply in_combine_l, In_nth_error in Hin. destruct Hin as [n Hn].
        apply (Hlast (S n)); [lia | exact Hn].
    + apply (IH row _ j); [exact Hh | exact Hc | | exact Hp].
      intros j' Hj'. apply (Hlast (S j')). lia.
Qed.
End RowRecord.

(** A record holds, under each header name but [__proto__], the typed cell
    of the last column that carries the name. *)
Lemma row_record_field (headers row : list string) (j : nat) (h c : string) :
  nth_error headers j = Some h ->
  nth_error row j = Some c ->
  last_named headers j ->
  h <> "__proto__" ->
  get (row_record headers row) h = Some (typed h c).
Proof. apply fold_get_last. Qed.

(** A record has a field for every header name but [__proto__], and for
    nothing else. *)
Lemma row_record_fields (headers row : list string) (h : string) :
  full_width headers row = true ->
  get (row_record headers row) h = None
  <-> ~ In h headers \/ h = "__proto__".
Proof.
  intro H. apply Nat.eqb_eq in H. unfold row_record.
  destruct (string_dec h "__proto__") as [-> | Hh].
  - rewrite fold_get_proto. cbn. tauto.
  - rewrite (fold_get_defined _ _ _ Hh).
    replace (map fst (combine headers row)) with headers.
    + cbn. tauto.
    + clear h Hh. revert row H.
      induction headers as [| h0 headers IH]; intros [| c0 row] H;
        try discriminate; [reflexivity |].
      cbn. f_equal. apply IH. now injection H.
Qed.

(** *** Rows of the wrong width *)

(** C4.  Whatever the text, [parseCSV] returns normally, and a data row
    whose number of fields differs from the header's leaves no record: the
    result is the records of the rows before it followed by the records of
    the rows after it, which is what the rows give without it; every record
    returned is whole: it has a field for each header name (the name
    [__proto__] apart, under which an object stores no field) and for
    nothing else. *)
Theorem parseCSV_skips_malformed_rows (csv : string)
    (before after : list (list string)) (bad : list string) :
  csv_rows csv = before ++ bad :: after ->
  length bad <> length (csv_headers csv) ->
  let headers := csv_headers csv in
  let records_of rows :=
    map (row_record headers) (filter (full_width headers) rows) in
  parseCSV csv = Ok (records_of before ++ records_of after) /\
  records_of before ++ records_of after = records_of (before ++ after) /\
  (forall rec h,
      In rec (records_of before ++ records_of after) ->
      get rec h = None <-> ~ In h headers \/ h = "__proto__").
Proof.
  intros Hrows Hbad headers records_of.
  assert (Hsame : records_of before ++ records_of after
                  = records_of (before ++ after)).
  { unfold records_of. now rewrite filter_app, map_app. }
  assert (Hall : records_of (before ++ bad :: after)
                 = records_of (before ++ after)).
  { unfold records_of. rewrite !filter_app. cbn [filter].
    unfold full_width at 2.
    now destruct (Nat.eqb_spec (length bad) (length headers)). }
  split; [| split; [exact Hsame |]].
  - rewrite parseCSV_rows, Hrows. fold headers. fold (records_of (before ++ bad :: after)).
    now rewrite Hall, Hsame.
  - intros rec h Hin. rewrite Hsame in Hin. unfold records_of in Hin.
    apply in_map_iff in Hin. destruct Hin as (row & <- & Hrow).
    apply filter_In in Hrow. now apply row_record_fields.
Qed.

Lemma parseCSV_skips_malformed_rows_witness :
  csv_rows sample_csv
  = [["Paris"; "41"]] ++ ["Oslo"] :: [["Rome"; "n/a"]; ["Lima"; "88"; "x"]; ["Kyiv"; "57"]] /\
  length ["Oslo"] <> length (csv_headers sample_csv) /\
  parseCSV sample_csv
  = Ok [ [("City", VStr "Paris"); ("AQI Value", VNum (Int 41))];
         [("City", VStr "Rome"); ("AQI Value", VNum NaN)];
         [("City", VStr "Kyiv"); ("AQI Value", VNum (Int 57))] ].
Proof.
  assert (Hrows : csv_rows sample_csv
                  = [["Paris"; "41"]] ++ ["Oslo"] ::
                    [["Rome"; "n/a"]; ["Lima"; "88"; "x"]; ["Kyiv"; "57"]])
    by reflexivity.
  assert (Hbad : length ["Oslo"] <> length (csv_headers sample_csv))
    by (vm_compute; lia).
  split; [exact Hrows | split; [exact Hbad |]].
  rewrite (proj1 (parseCSV_skips_malformed_rows sample_csv _ _ _ Hrows Hbad)).
  reflexivity.
Defined.

(** *** Cells that are not numbers *)

Lemma leading_digits_started (s : string) (a : Z) :
  leading_digits s (Some a) <> None.
Proof.
  revert a. induction s as [| c s IH]; intro a; cbn; [discriminate |].
  destruct (digit_of c); [apply IH | discriminate].
Qed.

Lemma leading_digits_none (s : string) :
  leading_digits s None = None
  <-> match first_char s with
      | Some c => digit_of c = None
      | None => True
      end.
Proof.
  destruct s as [| c s]; cbn; [tauto |].
  destruct (digit_of c) as [d |].
  - split; [intro H | discriminate].
    now apply leading_digits_started in H.
  - tauto.
Qed.

(** [parseInt] gives NaN exactly on the cells with no digit where the
    number should begin. *)
Lemma parseInt_NaN (cell : string) : parseInt cell = NaN <-> digitless cell.
Proof.
  unfold parseInt, digitless.
  assert (Hcase : forall sign s,
             match leading_digits s None with
             | Some mathInt => Int (sign * mathInt)
             | None => NaN
             end = NaN
             <-> match first_char s with
                 | Some c => digit_of c = None
                 | None => True
                 end).
  { intros sign s. rewrite <- leading_digits_none.
    destruct (leading_digits s None); split; (discriminate || reflexivity). }
  destruct (trimStart cell) as [| a rest]; [apply (Hcase 1) |].
  destruct a as [[] [] [] [] [] [] [] []]; cbn [unsigned_part]; apply Hcase.
Qed.

(** C9, amended.  In a row as wide as the header, a cell on which base-10
    integer parsing fails, under a header whose name contains "Value" and
    is not repeated by a later column, leaves NaN in the field of that
    name: [parseCSV] returns normally and the record of the row is among
    the records returned, with the sentinel in place. *)
Theorem parseCSV_unparsable_value (csv : string) (row : list string)
    (j : nat) (h c : string) :
  In row (csv_rows csv) ->
  length row = length (csv_headers csv) ->
  nth_error (csv_headers csv) j = Some h ->
  nth_error row j = Some c ->
  includes "Value" h = true ->
  digitless c ->
  last_named (csv_headers csv) j ->
  keeps_sentinel csv row h.
Proof.
  intros Hrow Hwidth Hh Hc Hvalue Hfail Hlast.
  assert (Hfull : full_width (csv_headers csv) row = true)
    by now apply Nat.eqb_eq.
  exists (map (row_record (csv_headers csv))
              (filter (full_width (csv_headers csv)) (csv_rows csv))).
  exists (row_record (csv_headers csv) row).
  split; [apply parseCSV_rows | split; [| split; [| split]]].
  - apply in_map, filter_In. now split.
  - assert (Hp : h <> "__proto__") by (intros ->; discriminate Hvalue).
    rewrite (row_record_field _ _ _ _ _ Hh Hc Hlast Hp).
    unfold typed. rewrite Hvalue.
    apply parseInt_NaN in Hfail. now rewrite Hfail.
  - intros j' h' c'. apply row_record_field.
  - intro h'. now apply row_record_fields.
Qed.

Lemma parseCSV_unparsable_value_witness :
  keeps_sentinel sample_csv ["Rome"; "n/a"] "AQI Value".
Proof.
  assert (Hrow : In ["Rome"; "n/a"] (csv_rows sample_csv))
    by (vm_compute; tauto).
  assert (Hlast : last_named (csv_headers sample_csv) 1).
  { intros [| [| [| j']]] Hj'; try lia; vm_compute; discriminate. }
  exact (parseCSV_unparsable_value sample_csv ["Rome"; "n/a"] 1
           "AQI Value" "n/a" Hrow eq_refl eq_refl eq_refl eq_refl eq_refl Hlast).
Defined.

(** C9 as stated fails where a later column repeats the header name: in
    the text below the first cell, "x", is not a number, and the record
    holds 5, the cell of the second column, under "Value". *)
Lemma parseCSV_repeated_header_overwrites :
  In ["x"; "5"] (csv_rows sample_repeated_csv) /\
  length ["x"; "5"] = length (csv_headers sample_repeated_csv) /\
  nth_error (csv_headers sample_repeated_csv) 0 = Some "Value" /\
  nth_error ["x"; "5"] 0 = Some "x" /\
  includes "Value" "Value" = true /\
  digitless "x" /\
  parseCSV sample_repeated_csv = Ok [[("Value", VNum (Int 5))]] /\
  ~ keeps_sentinel sample_repeated_csv ["x"; "5"] "Value".
Proof.
  repeat split; try reflexivity.
  - vm_compute. tauto.
  - intros (records & rec & Hok & Hin & Hget & _).
    vm_compute in Hok. injection Hok as <-.
    destruct Hin as [<- | []]. vm_compute in Hget. discriminate Hget.
Qed.

(** *** Well-formed texts *)

Lemma filter_all {A : Type} (p : A -> bool) (l : list A) :
  Forall (fun a => p a = true) l -> filter p l = l.
Proof.
  induction 1 as [| a l Ha _ IH]; cbn; [reflexivity |].
  now rewrite Ha, IH.
Qed.

(** The lines of a padded well-formed text are the joined header and rows. *)
Lemma csv_lines_well_formed (pre post : string) (header : list string)
    (rows : list (list string)) :
  well_formed header rows ->
  all_white_space pre = true ->
  all_white_space post = true ->
  bare (csv_text header rows) ->
  csv_lines (pre ++ csv_text header rows ++ post)
  = map (join comma) (header :: rows).
Proof.
  intros [Hh Hr] Hpre Hpost Hbare.
  unfold csv_lines. rewrite (trim_padded _ _ _ Hpre Hpost Hbare).
  unfold csv_text. apply split_join; [discriminate |].
  apply Forall_map. constructor.
  - apply occurs_join; [reflexivity |].
    eapply Forall_impl; [| exact Hh]. now intros fld [_ H].
  - eapply Forall_impl; [| exact Hr]. intros row [_ Hrow].
    apply occurs_join; [reflexivity |].
    eapply Forall_impl; [| exact Hrow]. now intros fld [_ H].
Qed.

Lemma parseCSV_well_formed_rows (pre post : string) (header : list string)
    (rows : list (list string)) :
  header <> [] ->
  well_formed header rows ->
  all_white_space pre = true ->
  all_white_space post = true ->
  bare (csv_text header rows) ->
  parseCSV (pre ++ csv_text header rows ++ post)
  = Ok (map (row_record header) rows).
Proof.
  intros Hne Hwf Hpre Hpost Hbare.
  pose proof (csv_lines_well_formed _ _ _ _ Hwf Hpre Hpost Hbare) as Hlines.
  destruct Hwf as [Hh Hr].
  assert (Hheaders : csv_headers (pre ++ csv_text header rows ++ post) = header).
  { unfold csv_headers. rewrite Hlines. cbn [map hd].
    apply split_join; [exact Hne |].
    eapply Forall_impl; [| exact Hh]. now intros fld [H _]. }
  assert (Hrows : csv_rows (pre ++ csv_text header rows ++ post) = rows).
  { unfold csv_rows. rewrite Hlines. cbn [map tl]. rewrite map_map.
    rewrite <- (map_id rows) at 2. apply map_ext_in. intros row Hrow.
    rewrite Forall_forall in Hr. destruct (Hr row Hrow) as [Hlen Hplain].
    apply split_join.
    - intros ->. destruct header; [contradiction | discriminate].
    - eapply Forall_impl; [| exact Hplain]. now intros fld [H _]. }
  rewrite parseCSV_rows, Hheaders, Hrows. do 2 f_equal.
  apply filter_all. eapply Forall_impl; [| exact Hr].
  intros row [Hlen _]. now apply Nat.eqb_eq.
Qed.

(** C3, amended.  [parseCSV] applied to a well-formed text (a header line
    and N data rows, each with as many comma-separated fields as the
    header, no field holding a comma or a line break) that neither begins
    nor ends with white space, possibly with white space added around it,
    returns exactly N records in row order; every field whose header name
    contains "Value" is the base-10 integer parse of its cell and every
    other field is the text of its cell, a column named [__proto__]
    leaving no field. *)
Theorem parseCSV_well_formed (pre post : string) (header : list string)
    (rows : list (list string)) :
  well_formed header rows ->
  all_white_space pre = true ->
  all_white_space post = true ->
  bare (csv_text header rows) ->
  parsed_as (pre ++ csv_text header rows ++ post) header rows.
Proof.
  intros Hwf Hpre Hpost Hbare.
  destruct header as [| h0 header'] eqn:Eh.
  - (* no header field: a bare text then has no row either *)
    destruct rows as [| row rows'].
    + exists []. split; [| split; [reflexivity |]].
      * rewrite parseCSV_rows. unfold csv_rows, csv_lines.
        now rewrite (trim_padded _ _ _ Hpre Hpost Hbare).
      * intros [| i] row H; discriminate.
    + destruct Hbare as [Hfirst _]. discriminate Hfirst.
  - rewrite <- Eh in *.
    assert (Hne : header <> []) by (rewrite Eh; discriminate).
    exists (map (row_record header) rows).
    split; [now apply parseCSV_well_formed_rows |].
    split; [apply length_map |].
    intros i row Hrow. exists (row_record header row).
    split; [now apply map_nth_error |].
    assert (Hfull : full_width header row = true).
    { destruct Hwf as [_ Hr]. rewrite Forall_forall in Hr.
      apply Nat.eqb_eq, Hr. eapply nth_error_In, Hrow. }
    split.
    + intros j h c. apply row_record_field.
    + intro h. now apply row_record_fields.
Qed.

Lemma parseCSV_well_formed_witness :
  parsed_as
    (String LF "" ++ csv_text ["City"; "AQI Value"] [["Paris"; "41"]; ["Oslo"; "17"]]
       ++ String LF "")
    ["City"; "AQI Value"] [["Paris"; "41"]; ["Oslo"; "17"]].
Proof.
  apply (parseCSV_well_formed (String LF "") (String LF "")
           ["City"; "AQI Value"] [["Paris"; "41"]; ["Oslo"; "17"]]).
  - unfold well_formed, plain. repeat constructor.
  - reflexivity.
  - reflexivity.
  - split; reflexivity.
Defined.

(** C3 as stated fails where the text ends with white space: the last cell
    of the table below is "ok " and the record holds "ok". *)
Lemma parseCSV_trims_last_cell :
  well_formed sample_header sample_rows /\
  parseCSV (csv_text sample_header sample_rows)
  = Ok [[("City", VStr "Paris"); ("Note", VStr "ok")]] /\
  ~ parsed_as (csv_text sample_header sample_rows) sample_header sample_rows.
Proof.
  split; [| split; [reflexivity |]].
  - unfold well_formed, plain, sample_header, sample_rows. repeat constructor.
  - intros (records & Hok & _ & Hrec).
    destruct (Hrec 0%nat ["Paris"; "ok "] eq_refl) as (rec & Hnth & Hfield & _).
    vm_compute in Hok. injection Hok as <-.
    injection Hnth as <-.
    assert (Hlast : last_named sample_header 1).
    { intros [| [| [| j']]] Hj'; try lia; vm_compute; discriminate. }
    assert (Hname : "Note" <> "__proto__") by discriminate.
    specialize (Hfield 1%nat "Note" "ok " eq_refl eq_refl Hlast Hname).
    vm_compute in Hfield. discriminate Hfield.
Qed.

(** In a one-column text a last row of white space is trimmed away with
    the end of the text: two rows, one record. *)
Example parseCSV_trailing_blank_row :
  well_formed ["Value"] [["5"]; [" "]] /\
  parseCSV (csv_text ["Value"] [["5"]; [" "]]) = Ok [[("Value", VNum (Int 5))]].
Proof.
  split; [| reflexivity].
  unfold well_formed, plain. repeat constructor.
Qed.

(** A column named [__proto__] leaves no field in the records. *)
Example parseCSV_proto_column :
  parseCSV (join LF ["__proto__,City"; "a,b"; "c"]) = Ok [[("City", VStr "b")]].
Proof. reflexivity. Qed.

(** ** The scenario of the specification *)

(** Two records of country X with the values 30 and 170 and the stored
    categories "Good" and "Unhealthy": the average is 100, its colour is
    the Moderate one, and the distribution counts each category once. *)
Example end_to_end :
  let X := [ sample "X" "Alpha" 30 "Good" 1 5 0 30;
             sample "X" "Gamma" 170 "Unhealthy" 4 30 9 170 ] in
  getAverageAQI X = Int 100 /\
  getColorForAQI (getAverageAQI X) = Some (color_token Moderate) /\
  categoryDist X
  = [ ("Good", Int 1, "#4ade80"); ("Unhealthy", Int 1, "#f87171") ].
Proof. repeat split. Qed.

Example parseInt_cells :
  map parseInt ["42"; " -17px"; "+8"; "1.9"; "0x1F"; "-"; "n/a"; ""]
  = [Int 42; Int (-17); Int 8; Int 1; Int 0; NaN; NaN; NaN].
Proof. reflexivity. Qed.

(** A NaN average falls through every test to the last colour. *)
Example getColorForAQI_NaN : getColorForAQI NaN = Some (color_token Hazardous).
Proof. reflexivity. Qed.

(** * Further properties of the code *)

(** ** The parser on padded, short and arbitrary texts *)

Lemma trimStart_all_white (s : string) :
  all_white_space s = true -> trimStart s = EmptyString.
Proof.
  induction s as [| c s IH]; cbn; [reflexivity |].
  intro H. apply andb_prop in H. destruct H as [-> Hs]. now apply IH.
Qed.

Lemma trimStart_append (s post : string) :
  trimStart (s ++ post)%string
  = if all_white_space s then trimStart post
    else (trimStart s ++ post)%string.
Proof.
  induction s as [| c s IH]; cbn; [reflexivity |].
  destruct (is_white_space c); cbn; [exact IH | reflexivity].
Qed.

(** White space around a text does not survive the trim. *)
Lemma trim_padding (pre s post : string) :
  all_white_space pre = true ->
  all_white_space post = true ->
  trim (pre ++ s ++ post)%string = trim s.
Proof.
  intros Hpre Hpost. unfold trim.
  rewrite (trimStart_white _ _ Hpre), trimStart_append.
  destruct (all_white_space s) eqn:Hs.
  - now rewrite (trimStart_all_white _ Hpost), (trimStart_all_white _ Hs).
  - now apply trimEnd_append_white.
Qed.

(** X1.  White space before and after a text, such as the line feed that
    ends a file, changes nothing to what [parseCSV] returns. *)
Theorem parseCSV_ignores_padding (pre csv post : string) :
  all_white_space pre = true ->
  all_white_space post = true ->
  parseCSV (pre ++ csv ++ post) = parseCSV csv.
Proof.
  intros Hpre Hpost.
  rewrite !parseCSV_rows.
  unfold csv_headers, csv_rows, csv_lines.
  now rewrite (trim_padding _ _ _ Hpre Hpost).
Qed.

Lemma parseCSV_ignores_padding_witness :
  parseCSV (String LF "" ++ sample_csv ++ String LF " ") = parseCSV sample_csv.
Proof.
  apply (parseCSV_ignores_padding (String LF "") sample_csv (String LF " "));
    reflexivity.
Defined.

(** X2.  A text that is empty, all white space or a header line alone
    (no line feed is left once it is trimmed) gives no record, and no
    error. *)
Theorem parseCSV_header_only (csv : string) :
  header_only csv -> parseCSV csv = Ok [].
Proof.
  unfold header_only. intro H.
  rewrite parseCSV_rows. unfold csv_rows, csv_lines.
  now rewrite (split_free _ _ H).
Qed.

Lemma parseCSV_header_only_witness :
  parseCSV (String " " "City,AQI Value" ++ String LF "") = Ok [].
Proof.
  apply (parseCSV_header_only (String " " "City,AQI Value" ++ String LF "")).
  reflexivity.
Defined.

(** Where a field of a folded record comes from. *)
Lemma fold_get_typed (cells : list (string * string)) :
  forall (rec : object jsval) (h : string) (v : jsval),
    get (fold_left set_typed cells rec) h = Some v ->
    get rec h = Some v \/ exists c, In (h, c) cells /\ v = typed h c.
Proof.
  induction cells as [| [h0 c0] cells IH]; intros rec h v Hget; cbn in *.
  - now left.
  - destruct (IH _ _ _ Hget) as [Hrec | (c & Hin & Hv)].
    + unfold set_typed in Hrec. cbn [fst snd] in Hrec.
      destruct (string_dec h h0) as [<- | Hne].
      * destruct (string_dec h "__proto__") as [-> | Hp].
        -- rewrite get_assign_proto in Hrec. now left.
        -- rewrite (get_assign_same _ _ _ Hp) in Hrec. injection Hrec as <-.
           right. exists c0. split; [now left | reflexivity].
      * rewrite get_assign_other in Hrec by exact Hne. now left.
    + right. exists c. split; [now right | exact Hv].
Qed.

Lemma fold_keys_nodup (cells : list (string * string)) :
  forall rec : object jsval,
    NoDup (keys rec) -> NoDup (keys (fold_left set_typed cells rec)).
Proof.
  induction cells as [| [h0 c0] cells IH]; intros rec Hnd; [exact Hnd |].
  cbn [fold_left]. apply IH. unfold set_typed, assign.
  destruct (String.eqb (fst (h0, c0)) "__proto__");
    [exact Hnd | now apply keys_set_nodup].
Qed.

(** X3.  Whatever the text, every field of every record returned sits
    under a header name and holds a cell of its row, typed by the name: a
    number (an integer or NaN) when the name contains "Value", the text of
    the cell otherwise, never [undefined]; and no record has two fields of
    one name. *)
Theorem parseCSV_fields_typed (csv : string) (records : list (object jsval))
    (rec : object jsval) (h : string) (v : jsval) :
  parseCSV csv = Ok records ->
  In rec records ->
  get rec h = Some v ->
  In h (csv_headers csv) /\
  (exists row cell,
      In row (csv_rows csv) /\ In cell row /\
      v = if includes "Value" h then VNum (parseInt cell) else VStr cell) /\
  v <> VUndefined /\
  NoDup (keys rec).
Proof.
  intros Hok Hin Hget.
  rewrite parseCSV_rows in Hok. injection Hok as <-.
  apply in_map_iff in Hin. destruct Hin as (row & <- & Hrow).
  apply filter_In in Hrow. destruct Hrow as [Hrow Hfull].
  assert (Hcell : exists c, In (h, c) (combine (csv_headers csv) row)
                            /\ v = typed h c).
  { destruct (fold_get_typed _ _ _ _ Hget) as [Hempty | Hc];
      [discriminate Hempty | exact Hc]. }
  destruct Hcell as (c & Hc & ->).
  split; [now apply in_combine_l in Hc |].
  split; [exists row, c; repeat split;
          [exact Hrow | now apply in_combine_r in Hc] |].
  split.
  - unfold typed. destruct (includes "Value" h); discriminate.
  - apply fold_keys_nodup. constructor.
Qed.

Lemma parseCSV_fields_typed_witness :
  In "AQI Value" (csv_headers sample_csv) /\
  VNum (Int 41) <> VUndefined.
Proof.
  destruct (parseCSV_fields_typed sample_csv
              [ [("City", VStr "Paris"); ("AQI Value", VNum (Int 41))];
                [("City", VStr "Rome"); ("AQI Value", VNum NaN)];
                [("City", VStr "Kyiv"); ("AQI Value", VNum (Int 57))] ]
              [("City", VStr "Paris"); ("AQI Value", VNum (Int 41))]
              "AQI Value" (VNum (Int 41)) eq_refl (or_introl eq_refl) eq_refl)
    as (Hh & _ & Hv & _).
  split; [exact Hh | exact Hv].
Defined.

(** ** [parseInt] and what surrounds a number *)

Lemma leading_digits_append (s t : string) (c : ascii) (acc : option Z) :
  digit_of c = None ->
  leading_digits (s ++ String c t) acc = leading_digits s acc.
Proof.
  intro Hc. revert acc. induction s as [| a s IH]; intro acc; cbn.
  - now rewrite Hc.
  - destruct (digit_of a); [apply IH | reflexivity].
Qed.

Lemma parseInt_leading_space (ws s : string) :
  all_white_space ws = true -> parseInt (ws ++ s) = parseInt s.
Proof.
  intro H. unfold parseInt. now rewrite (trimStart_white _ _ H).
Qed.

Lemma parseInt_suffix (s t : string) (c : ascii) :
  digit_of c = None ->
  all_white_space s = false ->
  parseInt (s ++ String c t) = parseInt s.
Proof.
  intros Hc Hs.
  unfold parseInt. rewrite trimStart_append, Hs.
  destruct (trimStart s) as [| a rest] eqn:E.
  - exfalso. clear - Hs E. induction s as [| a s IH]; [discriminate |].
    cbn in *. destruct (is_white_space a); [now apply IH | discriminate].
  - change (String a rest ++ String c t)%string
      with (String a (rest ++ String c t)).
    destruct a as [[] [] [] [] [] [] [] []]; cbv beta iota;
      try match goal with
          | |- context [String ?a (rest ++ String c t)] =>
              change (String a (rest ++ String c t))
                with (String a rest ++ String c t)%string
          end;
      now rewrite (leading_digits_append _ _ _ _ Hc).
Qed.

(** X4.  [parseInt] reads through white space before a number and stops at
    the first character that is not a digit: white space in front of a
    cell, and any text behind it that starts with a non-digit (a unit, a
    decimal part, a carriage return), leave what the cell parses to
    unchanged, provided the cell is not blank. *)
Theorem parseInt_ignores_surroundings (ws s t : string) (c : ascii) :
  all_white_space ws = true ->
  digit_of c = None ->
  all_white_space s = false ->
  parseInt (ws ++ s ++ String c t) = parseInt s.
Proof.
  intros Hws Hc Hs.
  rewrite (parseInt_leading_space _ _ Hws).
  now apply parseInt_suffix.
Qed.

Lemma parseInt_ignores_surroundings_witness :
  parseInt (" " ++ "-41" ++ String "013" "") = Int (-41).
Proof.
  rewrite (parseInt_ignores_surroundings " " "-41" "" "013"%char);
    reflexivity.
Defined.

(** ** Buckets and averages *)

(** X5.  Severity grows with the index: of two integers the greater never
    gets a colour, nor a health text, of an earlier bucket than the
    smaller. *)
Theorem buckets_monotone (a b : Z) :
  a <= b ->
  exists i j : nat,
    color_bucket_index (getColorForAQI (Int a)) = Some i /\
    color_bucket_index (getColorForAQI (Int b)) = Some j /\
    health_bucket_index (getHealthImplications (Int a)) = Some i /\
    health_bucket_index (getHealthImplications (Int b)) = Some j /\
    (i <= j)%nat.
Proof.
  intro Hab.
  exists (bucket_index (bucket_of a)), (bucket_index (bucket_of b)).
  rewrite !getColorForAQI_bucket, !color_index_of_bucket,
    !getHealthImplications_bucket.
  repeat split.
  pose proof (bucket_of_bounds a) as Ha. pose proof (bucket_of_bounds b) as Hb.
  destruct (bucket_of a), (bucket_of b); cbn; lia.
Qed.

Lemma buckets_monotone_witness :
  exists i j : nat,
    color_bucket_index (getColorForAQI (Int 100)) = Some i /\
    color_bucket_index (getColorForAQI (Int 101)) = Some j /\
    (i <= j)%nat.
Proof.
  assert (H : 100 <= 101) by lia.
  destruct (buckets_monotone 100 101 H) as (i & j & Hi & Hj & _ & _ & Hij).
  exists i, j. auto.
Defined.

Lemma sum_Z_bounds (lo hi : Z) (zs : list Z) :
  Forall (fun z => lo <= z <= hi) zs ->
  Z.of_nat (length zs) * lo <= sum_Z zs <= Z.of_nat (length zs) * hi.
Proof.
  unfold sum_Z. induction 1 as [| z zs Hz _ IH]; cbn [length fold_right].
  - lia.
  - rewrite Nat2Z.inj_succ. lia.
Qed.

Lemma mean_bounds (lo hi : Z) (zs : list Z) :
  zs <> [] ->
  Forall (fun z => lo <= z <= hi) zs ->
  (inject_Z lo <= mean zs <= inject_Z hi)%Q.
Proof.
  intros Hne Hall. pose proof (sum_Z_bounds lo hi zs Hall) as [Hlo Hhi].
  assert (Hn : 0 < Z.of_nat (length zs))
    by (destruct zs; [contradiction | cbn; lia]).
  unfold mean.
  assert (Hq : (0 < inject_Z (Z.of_nat (length zs)))%Q)
    by (rewrite <- (Zlt_Qlt 0); exact Hn).
  split.
  - apply Qle_shift_div_l; [exact Hq |].
    rewrite <- inject_Z_mult, <- Zle_Qle. lia.
  - apply Qle_shift_div_r; [exact Hq |].
    rewrite <- inject_Z_mult, <- Zle_Qle. lia.
Qed.

(** Rounding keeps a number between the integers that bound it. *)
Lemma round_between (lo hi : Z) (q : Q) :
  (inject_Z lo <= q <= inject_Z hi)%Q ->
  lo <= Qfloor (q + (1 # 2)) <= hi.
Proof.
  intros [Hlo Hhi].
  pose proof (Qfloor_le (q + (1 # 2))) as Hf.
  pose proof (Qlt_floor (q + (1 # 2))) as Hc.
  set (r := Qfloor (q + (1 # 2))) in *. clearbody r.
  split.
  - assert (H : (inject_Z lo < inject_Z (r + 1))%Q) by lra.
    rewrite <- Zlt_Qlt in H. lia.
  - assert (H : (inject_Z r < inject_Z (hi + 1))%Q).
    { rewrite inject_Z_plus. change (inject_Z 1) with 1%Q. lra. }
    rewrite <- Zlt_Qlt in H. lia.
Qed.

(** X6.  The average of a non-empty sequence of records lies between the
    smallest and the greatest "AQI Value": integer values within [lo, hi],
    small enough for doubles to add and divide them without rounding, give
    an average within [lo, hi]. *)
Theorem getAverageAQI_between (lo hi : Z) (data : list AQIRecord) :
  data <> [] ->
  Forall (fun d => exists z, AQI_Value d = Int z /\ lo <= z <= hi) data ->
  within_doubles (column key_AQI_Value data) ->
  exists r : Z, getAverageAQI data = Int r /\ lo <= r <= hi.
Proof.
  intros Hne Hall _.
  assert (Hint : integer_column key_AQI_Value data).
  { eapply Forall_impl; [| exact Hall].
    intros d (z & Hz & _). cbn. now rewrite Hz. }
  assert (Hcol : Forall (fun z => lo <= z <= hi) (column key_AQI_Value data)).
  { unfold column. apply Forall_map.
    eapply Forall_impl; [| exact Hall].
    intros d (z & Hz & Hb). cbn. now rewrite Hz. }
  exists (Qfloor (mean (column key_AQI_Value data) + (1 # 2))). split.
  - unfold getAverageAQI. destruct data as [| d data']; [contradiction |].
    change (length (d :: data') =? 0)%nat with false. cbv iota.
    apply (rounded_mean_of_key key_AQI_Value); assumption.
  - apply round_between, mean_bounds; [| exact Hcol].
    now apply column_nonempty.
Qed.

Lemma getAverageAQI_between_witness :
  exists r : Z, getAverageAQI [sample_X1; sample_X3] = Int r /\ 0 <= r <= 500.
Proof.
  apply (getAverageAQI_between 0 500 [sample_X1; sample_X3]).
  - discriminate.
  - repeat constructor.
    + exists 10. split; [reflexivity | lia].
    + exists 170. split; [reflexivity | lia].
  - vm_compute. reflexivity.
Defined.

Lemma num_add_swap (a x y : number) :
  num_add (num_add a x) y = num_add (num_add a y) x.
Proof. destruct a, x, y; cbn; try reflexivity. f_equal; lia. Qed.

Lemma fold_num_add_permutation (f : AQIRecord -> number)
    (data data' : list AQIRecord) :
  Permutation data data' ->
  forall a : number,
    fold_left (fun acc curr => num_add acc (f curr)) data a
    = fold_left (fun acc curr => num_add acc (f curr)) data' a.
Proof.
  induction 1 as [| d l l' _ IH | d d' l | l l' l'' _ IH1 _ IH2];
    intro a; cbn.
  - reflexivity.
  - apply IH.
  - now rewrite num_add_swap.
  - now rewrite IH1.
Qed.

(** X7.  The average does not depend on the order of the records, as long
    as their values are small enough for doubles to add them without
    rounding. *)
Theorem getAverageAQI_permutation (data data' : list AQIRecord) :
  within_doubles (column key_AQI_Value data) ->
  Permutation data data' -> getAverageAQI data = getAverageAQI data'.
Proof.
  intros _ Hp. unfold getAverageAQI, length_number.
  rewrite (Permutation_length Hp).
  now rewrite (fold_num_add_permutation AQI_Value _ _ Hp).
Qed.

Lemma getAverageAQI_permutation_witness :
  getAverageAQI [sample_X1; sample_X3] = getAverageAQI [sample_X3; sample_X1].
Proof.
  apply (getAverageAQI_permutation [sample_X1; sample_X3] [sample_X3; sample_X1]).
  - vm_compute. reflexivity.
  - apply perm_swap.
Defined.

(** X8.  The profile of a non-empty subset has five entries and opens with
    the very average [getAverageAQI] gives for the subset, under the label
    Total; it is empty only for the empty subset. *)
Theorem pollutantAverages_total (countryData : list AQIRecord) :
  countryData <> [] ->
  length (pollutantAverages countryData) = 5%nat /\
  nth_error (pollutantAverages countryData) 0
  = Some ("Total", getAverageAQI countryData).
Proof.
  intro Hne. unfold pollutantAverages, getAverageAQI.
  destruct countryData as [| d data'] eqn:E; [contradiction |].
  change (length (d :: data') =? 0)%nat with false. cbv iota zeta.
  rewrite <- E. clear E.
  destruct (sums_by_key countryData (mkSums (Int 0) (Int 0) (Int 0) (Int 0) (Int 0)))
    as (-> & _).
  split; reflexivity.
Qed.

Lemma pollutantAverages_total_witness :
  nth_error (pollutantAverages [sample_X1; sample_X3]) 0
  = Some ("Total", getAverageAQI [sample_X1; sample_X3]).
Proof.
  apply (pollutantAverages_total [sample_X1; sample_X3]). discriminate.
Defined.

(** ** Rankings of rankings, and the order of the distribution *)

Lemma descending_prefix (zs1 zs2 : list Z) :
  descending (zs1 ++ zs2) -> descending zs1.
Proof.
  induction zs1 as [| z zs1 IH]; intro Hd; [exact I |].
  cbn [app] in Hd. apply descending_cons in Hd. apply descending_cons.
  split; [| apply IH, Hd].
  destruct zs1; [exact I | apply Hd].
Qed.

(** Sorting leaves an array alone when it is already in descending order. *)
Lemma sort_of_descending {A : Type} (key : A -> Z) (l : list A) :
  descending (map key l) -> sort (by_key_descending key) l = l.
Proof.
  induction l as [| x l IH]; intro Hd; [reflexivity |].
  cbn [map] in Hd. apply descending_cons in Hd. destruct Hd as [Hhd Hd].
  rewrite sort_cons, (IH Hd).
  destruct l as [| y l]; [reflexivity |].
  cbn [sort_insert by_key_descending is_positive map] in *.
  destruct (Z.ltb_spec 0 (key y - key x)); [lia | reflexivity].
Qed.

Lemma firstn_sort_descending {A : Type} (key : A -> Z) (n : nat) (l : list A) :
  descending (map key (firstn n (sort (by_key_descending key) l))).
Proof.
  pose proof (sort_descending key l) as Hd.
  rewrite <- (firstn_skipn n (sort (by_key_descending key) l)), map_app in Hd.
  now apply descending_prefix in Hd.
Qed.

Lemma in_firstn {A : Type} (n : nat) (l : list A) (x : A) :
  In x (firstn n l) -> In x l.
Proof.
  intro H. rewrite <- (firstn_skipn n l). apply in_or_app. now left.
Qed.

(** X9.  Ranking a ranking changes nothing: [topCities] returns its own
    result unchanged. *)
Theorem topCities_idempotent (data : list AQIRecord) (k : pollutantType) :
  integer_column k data ->
  topCities (topCities data k) k = topCities data k.
Proof.
  intro Hint.
  assert (Hint' : integer_column k (topCities data k)).
  { unfold integer_column in *. rewrite Forall_forall in *.
    intros d Hd. apply Hint. unfold topCities, slice0 in Hd.
    apply in_firstn in Hd.
    eapply Permutation_in; [apply sort_permutation | exact Hd]. }
  rewrite (topCities_by_key _ k Hint'), (topCities_by_key data k Hint).
  rewrite sort_of_descending by apply firstn_sort_descending.
  rewrite firstn_firstn. now rewrite Nat.min_id.
Qed.

Lemma topCities_idempotent_witness :
  topCities (topCities [sample_X1; sample_X3; sample_X4] key_AQI_Value)
            key_AQI_Value
  = topCities [sample_X1; sample_X3; sample_X4] key_AQI_Value.
Proof.
  apply (topCities_idempotent [sample_X1; sample_X3; sample_X4] key_AQI_Value).
  repeat constructor.
Defined.

Lemma Set_from_snoc (l : list string) (x : string) :
  Set_from (l ++ [x])
  = if existsb (String.eqb x) (Set_from l) then Set_from l
    else Set_from l ++ [x].
Proof. unfold Set_from. now rewrite fold_left_app. Qed.

Lemma existsb_get {V : Type} (o : object V) (k : string) :
  existsb (String.eqb k) (keys o)
  = match get o k with Some _ => true | None => false end.
Proof.
  induction o as [| [k' v] o IH]; cbn; [reflexivity |].
  destruct (String.eqb k k'); [reflexivity | exact IH].
Qed.

(** The labels of the dictionary are the distinct categories, first come
    first. *)
Lemma category_counts_keys (countryData : list AQIRecord) :
  keys (category_counts countryData) = Set_from (map AQI_Category countryData).
Proof.
  unfold category_counts.
  induction countryData as [| d l IH] using rev_ind; [reflexivity |].
  rewrite fold_left_app, map_app. cbn [fold_left map].
  rewrite Set_from_snoc, keys_set, <- IH, existsb_get.
  now destruct (get _ (AQI_Category d)).
Qed.

(** X10.  The entries of the category distribution, for categories that
    are plain keys (no inherited name, no digit in front), come in the
    order in which their categories first occur among the records, which
    is the order of [Array.from(new Set(categories))]. *)
Theorem categoryDist_order (countryData : list AQIRecord) :
  Forall plain_key (map AQI_Category countryData) ->
  map (fun entry => fst (fst entry)) (categoryDist countryData)
  = Set_from (map AQI_Category countryData).
Proof.
  intros _. unfold categoryDist. rewrite map_map, <- category_counts_keys.
  unfold keys. apply map_ext. now intros [label value].
Qed.

Lemma categoryDist_order_witness :
  map (fun entry => fst (fst entry))
      (categoryDist [sample_X3; sample_X1; sample_X4])
  = ["Unhealthy"; "Good"].
Proof.
  rewrite (categoryDist_order [sample_X3; sample_X1; sample_X4]);
    [reflexivity | plain_keys].
Defined.

(** ** Statistics per country *)

Lemma set_set {V : Type} (o : object V) (k : string) (v v' : V) :
  set (set o k v) k v' = set o k v'.
Proof.
  induction o as [| [k0 v0] o IH]; cbn.
  - now rewrite String.eqb_refl.
  - destruct (String.eqb_spec k k0) as [-> | Hne]; cbn.
    + now rewrite String.eqb_refl.
    + destruct (String.eqb_spec k k0); [contradiction | now rewrite IH].
Qed.

(** The four statements of the loop body amount to one write, and they
    never read a property of [undefined]. *)
Lemma visit_set (stats : object Map.stat) (record : AQIRecord) :
  Map.visit stats record
  = Ok (set stats (Country record)
          (visited match get stats (Country record) with
                   | Some s => s
                   | None => Map.mkStat (Int 0) (Int 0) []
                   end record)).
Proof.
  unfold Map.visit, Map.update, visited.
  destruct (get stats (Country record)) as [s |] eqn:E.
  - rewrite E. cbn [bind]. rewrite get_set_same. cbn [bind].
    rewrite get_set_same. cbn. now rewrite !set_set.
  - rewrite get_set_same. cbn [bind]. rewrite get_set_same. cbn [bind].
    rewrite get_set_same. cbn. now rewrite !set_set.
Qed.

Lemma existsb_in (x : string) (l : list string) :
  existsb (String.eqb x) l = true <-> In x l.
Proof.
  rewrite existsb_exists. split.
  - intros (y & Hy & E). apply String.eqb_eq in E. now subst.
  - intro H. exists x. split; [exact H | apply String.eqb_refl].
Qed.

Lemma Set_from_in (l : list string) (x : string) :
  In x (Set_from l) <-> In x l.
Proof.
  induction l as [| y l IH] using rev_ind; [reflexivity |].
  rewrite Set_from_snoc, in_app_iff. cbn [In].
  destruct (existsb (String.eqb y) (Set_from l)) eqn:E.
  - apply existsb_in in E. rewrite IH in *. intuition (subst; auto).
  - rewrite in_app_iff, IH. cbn [In]. tauto.
Qed.

Lemma Set_from_nodup (l : list string) : NoDup (Set_from l).
Proof.
  induction l as [| y l IH] using rev_ind; [constructor |].
  rewrite Set_from_snoc.
  destruct (existsb (String.eqb y) (Set_from l)) eqn:E; [exact IH |].
  apply NoDup_app; [exact IH | repeat constructor; intros [] |].
  intros x Hx [<- | []].
  apply existsb_in in Hx. congruence.
Qed.

Lemma countryData_snoc (l : list AQIRecord) (r : AQIRecord) (c : string) :
  countryData (l ++ [r]) c
  = countryData l c ++ if String.eqb (Country r) c then [r] else [].
Proof.
  unfold countryData. rewrite filter_app. cbn [filter].
  now destruct (String.eqb (Country r) c).
Qed.

Lemma countryData_empty (l : list AQIRecord) (c : string) :
  countryData l c = [] <-> ~ In c (map Country l).
Proof.
  unfold countryData. induction l as [| d l IH]; cbn; [tauto |].
  destruct (String.eqb_spec (Country d) c) as [E | Hne].
  - split; [discriminate | intro H; exfalso; apply H; now left].
  - rewrite IH. tauto.
Qed.

Lemma group_stat_snoc (g : list AQIRecord) (r : AQIRecord) :
  visited (group_stat g) r = group_stat (g ++ [r]).
Proof.
  unfold visited, group_stat, length_number. cbn.
  rewrite fold_left_app, length_app. cbn.
  do 2 f_equal. lia.
Qed.

Lemma grouped_step (l : list AQIRecord) (stats : object Map.stat)
    (r : AQIRecord) :
  grouped l stats ->
  grouped (l ++ [r])
    (set stats (Country r)
       (visited match get stats (Country r) with
                | Some s => s
                | None => Map.mkStat (Int 0) (Int 0) []
                end r)).
Proof.
  intros (Hnd & Hkeys & Hget).
  assert (Hnew : get stats (Country r) = None ->
                 countryData l (Country r) = []).
  { intro E. apply countryData_empty. rewrite <- Set_from_in, <- Hkeys.
    now apply get_none_keys. }
  split; [now apply keys_set_nodup | split].
  - rewrite keys_set, map_app. cbn [map].
    rewrite Set_from_snoc, <- Hkeys, existsb_get.
    now destruct (get stats (Country r)).
  - intros c Hc. rewrite countryData_snoc.
    destruct (String.eqb_spec (Country r) c) as [<- | Hne].
    + rewrite get_set_same. f_equal.
      destruct (get stats (Country r)) as [s |] eqn:E.
      * assert (Hin : In (Country r) (keys stats)).
        { destruct (in_dec string_dec (Country r) (keys stats)) as [H | H];
            [exact H |]. apply get_none_keys in H. congruence. }
        rewrite (Hget _ Hin) in E. injection E as <-.
        apply group_stat_snoc.
      * rewrite (Hnew eq_refl). reflexivity.
    + rewrite get_set_other by congruence. rewrite app_nil_r.
      apply Hget. rewrite keys_set in Hc.
      destruct (get stats (Country r)); [exact Hc |].
      apply in_app_or in Hc. destruct Hc as [Hc | [E | []]];
        [exact Hc | congruence].
Qed.

Lemma forEach_record_grouped (rest : list AQIRecord) :
  forall (l : list AQIRecord) (stats : object Map.stat),
    grouped l stats ->
    exists stats',
      Map.forEach_record rest stats = Ok stats' /\ grouped (l ++ rest) stats'.
Proof.
  induction rest as [| r rest IH]; intros l stats H.
  - exists stats. now rewrite app_nil_r.
  - cbn [Map.forEach_record]. rewrite visit_set. cbn [bind].
    replace (l ++ r :: rest) with ((l ++ [r]) ++ rest)
      by now rewrite <- app_assoc.
    apply IH, grouped_step, H.
Qed.

(** A dictionary is the table of its values over its keys. *)
Lemma object_table {V : Type} (o : object V) (f : string -> V) :
  NoDup (keys o) ->
  (forall k, In k (keys o) -> get o k = Some (f k)) ->
  o = map (fun k => (k, f k)) (keys o).
Proof.
  induction o as [| [k v] o IH]; intros Hnd Hget; [reflexivity |].
  cbn [keys map fst] in *. inversion Hnd as [| ? ? Hnot Hnd']; subst.
  f_equal.
  - specialize (Hget k (or_introl eq_refl)). cbn in Hget.
    rewrite String.eqb_refl in Hget. now injection Hget as <-.
  - apply IH; [exact Hnd' |]. intros k' Hk'.
    specialize (Hget k' (or_intror Hk')). cbn in Hget.
    destruct (String.eqb_spec k' k) as [E | _];
      [subst; contradiction | exact Hget].
Qed.

(** [countryStats] never throws; it has one entry per country, in the order
    in which the countries first occur, computed from the records of that
    country alone. *)
Lemma countryStats_groups (data : list AQIRecord) :
  Map.countryStats data
  = Ok (map (fun c => group_entry c (countryData data c))
            (Set_from (map Country data))).
Proof.
  unfold Map.countryStats.
  destruct (forEach_record_grouped data [] []) as (stats & -> & Hg).
  { split; [constructor | split; [reflexivity | intros c []]]. }
  cbn [app bind] in *. destruct Hg as (Hnd & Hkeys & Hget).
  rewrite (object_table stats (fun c => group_stat (countryData data c)) Hnd Hget).
  rewrite map_map, Hkeys. f_equal. apply map_ext_in. intros c Hc.
  rewrite Set_from_in in Hc.
  unfold group_entry, group_stat, getAverageAQI. cbn.
  destruct (countryData data c) as [| d g] eqn:E; [| reflexivity].
  apply countryData_empty in E. contradiction.
Qed.

Lemma list_sum_indicator_absent (x : string) (ks : list string) :
  ~ In x ks ->
  list_sum (map (fun c => if String.eqb x c then 1 else 0)%nat ks) = 0%nat.
Proof.
  unfold list_sum.
  induction ks as [| k ks IH]; intro Hnot; [reflexivity |].
  cbn [map fold_right]. destruct (String.eqb_spec x k) as [E | _].
  - exfalso. apply Hnot. now left.
  - apply IH. intro H. apply Hnot. now right.
Qed.

Lemma list_sum_indicator (x : string) (ks : list string) :
  NoDup ks -> In x ks ->
  list_sum (map (fun c => if String.eqb x c then 1 else 0)%nat ks) = 1%nat.
Proof.
  pose proof (list_sum_indicator_absent x) as Habsent.
  unfold list_sum in *.
  induction 1 as [| k ks Hnot _ IH]; intros Hin; [contradiction |].
  cbn [map fold_right]. destruct (String.eqb_spec x k) as [E | Hne].
  - subst k. now rewrite (Habsent _ Hnot).
  - destruct Hin as [E | Hin]; [now symmetry in E | now rewrite (IH Hin)].
Qed.

(** The groups of the countries share out the records. *)
Lemma group_sizes (ks : list string) (l : list AQIRecord) :
  NoDup ks ->
  (forall d, In d l -> In (Country d) ks) ->
  list_sum (map (fun c => length (countryData l c)) ks) = length l.
Proof.
  intros Hnd. induction l as [| d l IH]; intro Hall.
  - clear. induction ks as [| k ks IHk]; [reflexivity |].
    cbn in *. exact IHk.
  - rewrite (map_ext _
               (fun c => (if String.eqb (Country d) c then 1 else 0)
                         + length (countryData l c))%nat).
    + assert (Hsplit : forall (f g : string -> nat) (xs : list string),
                 list_sum (map (fun c => f c + g c)%nat xs)
                 = (list_sum (map f xs) + list_sum (map g xs))%nat).
      { intros f g xs. unfold list_sum.
        induction xs as [| x xs IHx]; [reflexivity |].
        cbn [map fold_right]. rewrite IHx. lia. }
      rewrite Hsplit, IH by (intros; apply Hall; now right).
      rewrite list_sum_indicator; [reflexivity | exact Hnd |].
      apply Hall. now left.
    + intro c. unfold countryData. cbn [filter].
      now destruct (String.eqb (Country d) c).
Qed.

Lemma sum_numbers_lengths (sizes : list nat) :
  sum_numbers (map (fun n => Int (Z.of_nat n)) sizes)
  = Int (Z.of_nat (list_sum sizes)).
Proof.
  unfold sum_numbers, list_sum.
  induction sizes as [| n sizes IH]; [reflexivity |].
  cbn [map fold_right]. rewrite IH. cbn [num_add]. f_equal. lia.
Qed.

(** X11.  For country names that are plain keys (no inherited name, no
    digit in front), [countryStats] does not throw and has exactly one
    entry for each country of the data, in the order in which the
    countries first occur; the [cityCount] of an entry is the number of
    records of its country, which is never zero, and the counts add up to
    the number of records. *)
Theorem countryStats_by_country (data : list AQIRecord) :
  Forall plain_key (map Country data) ->
  exists stats : list Map.entry,
    Map.countryStats data = Ok stats /\
    map Map.country stats = Set_from (map Country data) /\
    NoDup (map Map.country stats) /\
    (forall c, In c (map Map.country stats) <-> In c (map Country data)) /\
    (forall e, In e stats ->
               Map.cityCount e
               = length_number (countryData data (Map.country e)) /\
               Map.cityCount e <> Int 0) /\
    sum_numbers (map Map.cityCount stats) = length_number data.
Proof.
  intros _.
  eexists. split; [apply countryStats_groups |].
  assert (Hc : map Map.country
                 (map (fun c => group_entry c (countryData data c))
                      (Set_from (map Country data)))
               = Set_from (map Country data)).
  { rewrite map_map. cbn. apply map_id. }
  split; [exact Hc | split; [| split; [| split]]].
  - rewrite Hc. apply Set_from_nodup.
  - intro c. rewrite Hc. apply Set_from_in.
  - intros e He. apply in_map_iff in He. destruct He as (c & <- & Hin).
    cbn. split; [reflexivity |].
    rewrite Set_from_in in Hin.
    destruct (countryData data c) eqn:E; [| discriminate].
    apply countryData_empty in E. contradiction.
  - rewrite map_map. cbn. unfold length_number at 1.
    rewrite <- (map_map (fun c => length (countryData data c))
                        (fun n => Int (Z.of_nat n))).
    rewrite sum_numbers_lengths, group_sizes; [reflexivity | |].
    + apply Set_from_nodup.
    + intros d Hd. apply Set_from_in. now apply in_map.
Qed.

Lemma countryStats_by_country_witness :
  exists stats : list Map.entry,
    Map.countryStats sample_data = Ok stats /\
    map Map.country stats = ["X"; "Y"].
Proof.
  assert (H : Forall plain_key (map Country sample_data)) by plain_keys.
  destruct (countryStats_by_country sample_data H)
    as (stats & Hok & Hc & _).
  exists stats. split; [exact Hok | exact Hc].
Defined.

(** X12.  The average a map marker shows for a country is the average
    [getAverageAQI] gives for the records of that country, the one the
    dashboard shows for the country when it is selected. *)
Theorem countryStats_average (data : list AQIRecord)
    (stats : list Map.entry) (e : Map.entry) :
  Map.countryStats data = Ok stats ->
  In e stats ->
  Map.avgAQI e = getAverageAQI (countryData data (Map.country e)).
Proof.
  rewrite countryStats_groups. intros [= <-] He.
  apply in_map_iff in He. now destruct He as (c & <- & _).
Qed.

Lemma countryStats_average_witness :
  exists stats e,
    Map.countryStats sample_data = Ok stats /\ In e stats /\
    Map.country e = "X" /\
    Map.avgAQI e = getAverageAQI (countryData sample_data "X").
Proof.
  eexists. eexists.
  assert (Hok : Map.countryStats sample_data
                = Ok [ group_entry "X" (countryData sample_data "X");
                       group_entry "Y" (countryData sample_data "Y") ])
    by reflexivity.
  split; [exact Hok | split; [now left | split; [reflexivity |]]].
  exact (countryStats_average sample_data _
           (group_entry "X" (countryData sample_data "X")) Hok
           (or_introl eq_refl)).
Defined.

(** X13.  The top cities of a map marker are the first three of the
    ranking by total AQI that [topCities] gives for the records of the
    country: at most three records, all of that country. *)
Theorem countryStats_top_cities (data : list AQIRecord)
    (stats : list Map.entry) (e : Map.entry) :
  Map.countryStats data = Ok stats ->
  In e stats ->
  Map.topCities e
  = firstn 3 (topCities (countryData data (Map.country e)) key_AQI_Value) /\
  length (Map.topCities e)
  = Nat.min 3 (length (countryData data (Map.country e))) /\
  (forall d, In d (Map.topCities e) ->
             In d data /\ Country d = Map.country e).
Proof.
  rewrite countryStats_groups. intros [= <-] He.
  apply in_map_iff in He. destruct He as (c & <- & _).
  cbn [group_entry Map.topCities Map.country].
  set (ranked := sort (fun a b => num_sub (AQI_Value b) (AQI_Value a))
                      (countryData data c)).
  assert (Hperm : Permutation ranked (countryData data c))
    by apply sort_permutation.
  split; [| split].
  - unfold topCities, slice0. cbn [field]. fold ranked.
    now rewrite firstn_firstn.
  - unfold slice0. now rewrite length_firstn, (Permutation_length Hperm).
  - intros d Hd. unfold slice0 in Hd. apply in_firstn in Hd.
    apply (Permutation_in _ Hperm) in Hd.
    unfold countryData in Hd. apply filter_In in Hd.
    destruct Hd as [Hin Hc]. now apply String.eqb_eq in Hc.
Qed.

Lemma countryStats_top_cities_witness :
  exists stats e,
    Map.countryStats sample_data = Ok stats /\ In e stats /\
    Map.topCities e = [sample_X3; sample_X1; sample_X4].
Proof.
  eexists. eexists.
  assert (Hok : Map.countryStats sample_data
                = Ok [ group_entry "X" (countryData sample_data "X");
                       group_entry "Y" (countryData sample_data "Y") ])
    by reflexivity.
  split; [exact Hok | split; [now left |]].
  rewrite (proj1 (countryStats_top_cities sample_data _
                    (group_entry "X" (countryData sample_data "X")) Hok
                    (or_introl eq_refl))).
  reflexivity.
Defined.

(** ** The legend of the map *)

(** X14.  The legend tells the colour of every index from 0 up: exactly
    one of its lines has a range that holds the index, and the colour of
    that line is the colour [getColorForAQI] gives the index. *)
Theorem legend_agrees (aqi : Z) :
  0 <= aqi ->
  exists item : Map.legend,
    In item Map.LEGEND_DATA /\
    in_range (Map.range item) aqi = true /\
    Map.color item = getColorForAQI (Int aqi) /\
    forall item', In item' Map.LEGEND_DATA ->
                  in_range (Map.range item') aqi = true -> item' = item.
Proof.
  intro H0. rewrite getColorForAQI_bucket.
  pose proof (bucket_of_bounds aqi) as Hb.
  assert (R1 : in_range "0-50" aqi = (0 <=? aqi) && (aqi <=? 50)) by reflexivity.
  assert (R2 : in_range "51-100" aqi = (51 <=? aqi) && (aqi <=? 100)) by reflexivity.
  assert (R3 : in_range "101-150" aqi = (101 <=? aqi) && (aqi <=? 150)) by reflexivity.
  assert (R4 : in_range "151-200" aqi = (151 <=? aqi) && (aqi <=? 200)) by reflexivity.
  assert (R5 : in_range "201-300" aqi = (201 <=? aqi) && (aqi <=? 300)) by reflexivity.
  assert (R6 : in_range "301+" aqi = (301 <=? aqi) && true) by reflexivity.
  exists (nth (bucket_index (bucket_of aqi)) Map.LEGEND_DATA
              (Map.mkLegend "" "" None)).
  destruct (bucket_of aqi); cbn [bucket_index nth Map.LEGEND_DATA Map.range Map.color];
    (split; [cbn; tauto |]);
    (split; [rewrite ?R1, ?R2, ?R3, ?R4, ?R5, ?R6; apply andb_true_intro;
             split; try reflexivity; apply Z.leb_le; lia |]);
    (split; [reflexivity |]);
    intros item' Hin Hr;
    cbn [In Map.LEGEND_DATA] in Hin;
    repeat (destruct Hin as [<- | Hin]; [cbn [Map.range] in Hr |]);
    try contradiction; try reflexivity;
    rewrite ?R1, ?R2, ?R3, ?R4, ?R5, ?R6 in Hr;
    apply andb_prop in Hr; destruct Hr as [Hr1 Hr2];
    rewrite ?Z.leb_le in Hr1, Hr2; lia.
Qed.

Lemma legend_agrees_witness :
  exists item : Map.legend,
    In item Map.LEGEND_DATA /\
    in_range (Map.range item) 150 = true /\
    Map.color item = getColorForAQI (Int 150).
Proof.
  assert (H : 0 <= 150) by lia.
  destruct (legend_agrees 150 H) as (item & Hin & Hr & Hc & _).
  exists item. auto.
Defined.

(** ** The country list *)

Lemma default_compare_positive (x y : string) :
  is_positive (default_compare x y) = true <-> String.compare y x = Lt.
Proof.
  unfold default_compare, String.ltb. rewrite (String.compare_antisym y x).
  destruct (String.compare x y); cbn; split; (reflexivity || discriminate).
Qed.

Lemma sort_insert_ascending (x : string) (l : list string) :
  ascending l -> ~ In x l -> ascending (sort_insert default_compare x l).
Proof.
  induction l as [| y l IH]; intros Ha Hnot; [exact I |].
  cbn [sort_insert].
  destruct (is_positive (default_compare x y)) eqn:E.
  - apply default_compare_positive in E.
    assert (Ha' : ascending l) by (destruct l; [exact I | apply Ha]).
    assert (IH' : ascending (sort_insert default_compare x l))
      by (apply IH; [exact Ha' | intro; apply Hnot; now right]).
    destruct l as [| z l]; [cbn; auto |].
    cbn [sort_insert] in *.
    destruct (is_positive (default_compare x z)).
    + split; [apply Ha | exact IH'].
    + split; [exact E | exact IH'].
  - split; [| exact Ha].
    destruct (String.compare x y) eqn:C.
    + apply String.compare_eq_iff in C. subst. exfalso. apply Hnot. now left.
    + reflexivity.
    + exfalso. assert (H : String.compare y x = Lt)
        by (rewrite String.compare_antisym, C; reflexivity).
      apply default_compare_positive in H. congruence.
Qed.

Lemma sort_ascending (l : list string) :
  NoDup l -> ascending (sort default_compare l).
Proof.
  induction 1 as [| x l Hnot _ IH]; [exact I |].
  rewrite sort_cons. apply sort_insert_ascending; [exact IH |].
  intro H. apply Hnot.
  eapply Permutation_in; [apply sort_permutation | exact H].
Qed.

(** X15.  The country list holds each country of the data once, and every
    country of the list comes before the next one in the order of their
    code units. *)
Theorem countries_sorted (data : list AQIRecord) :
  ascending (countries data) /\
  NoDup (countries data) /\
  (forall c, In c (countries data) <-> In c (map Country data)).
Proof.
  unfold countries.
  assert (Hperm : Permutation (sort default_compare (Set_from (map Country data)))
                              (Set_from (map Country data)))
    by apply sort_permutation.
  split; [apply sort_ascending, Set_from_nodup | split].
  - eapply Permutation_NoDup; [symmetry; exact Hperm | apply Set_from_nodup].
  - intro c. rewrite <- (Set_from_in (map Country data)).
    split; apply Permutation_in;
      [exact Hperm | symmetry; exact Hperm].
Qed.

(** ** The figures of the insight card *)

Lemma maxPollutant_fold (others : list (string * number)) :
  forall first : string * number,
    Forall (fun p => is_integer (snd p)) (first :: others) ->
    exists before p after,
      fold_left
        (fun prev current =>
           if num_gt (snd prev) (snd current) then prev else current)
        others first = p /\
      first :: others = before ++ p :: after /\
      (forall q, In q before -> integer_of (snd q) <= integer_of (snd p)) /\
      (forall q, In q after -> integer_of (snd q) < integer_of (snd p)).
Proof.
  induction others as [| x others IH] using rev_ind; intros first Hall.
  - exists [], first, []. cbn. repeat split; intros q [].
  - assert (Hall' : Forall (fun p => is_integer (snd p)) (first :: others)).
    { change (first :: others ++ [x]) with ((first :: others) ++ [x]) in Hall.
      now apply Forall_app in Hall. }
    assert (Hx : is_integer (snd x)).
    { change (first :: others ++ [x]) with ((first :: others) ++ [x]) in Hall.
      apply Forall_app in Hall. destruct Hall as [_ Hx].
      now inversion Hx. }
    destruct (IH first Hall') as (before & p & after & Hp & Hsplit & Hb & Ha).
    assert (Hpi : is_integer (snd p)).
    { rewrite Forall_forall in Hall'. apply Hall'. rewrite Hsplit.
      apply in_or_app. right. now left. }
    rewrite fold_left_app. cbn [fold_left]. rewrite Hp.
    change (first :: others ++ [x]) with ((first :: others) ++ [x]).
    rewrite Hsplit.
    destruct (snd p) as [vp |] eqn:Ep; [| contradiction].
    destruct (snd x) as [vx |] eqn:Ex; [| contradiction].
    cbn [num_gt]. destruct (Z.ltb_spec vx vp) as [Hlt | Hge].
    + exists before, p, (after ++ [x]). rewrite Ep. cbn [integer_of] in *.
      repeat split.
      * now rewrite <- app_assoc.
      * exact Hb.
      * intros q Hq. apply in_app_or in Hq. destruct Hq as [Hq | [<- | []]].
        -- now apply Ha.
        -- rewrite Ex. exact Hlt.
    + exists (before ++ p :: after), x, []. rewrite Ex. cbn [integer_of] in *.
      repeat split.
      * intros q Hq. apply in_app_or in Hq. destruct Hq as [Hq | [<- | Hq]].
        -- specialize (Hb q Hq). lia.
        -- rewrite Ep. exact Hge.
        -- specialize (Ha q Hq). lia.
      * intros q [].
Qed.

(** X16.  On the empty array [maxPollutant] throws a [TypeError]; on a
    non-empty array of entries with integer values it returns an entry of
    the array whose value no entry before it exceeds and every entry after
    it stays below: the greatest value, the last one on a tie. *)
Theorem maxPollutant_greatest (pollutants : list (string * number)) :
  pollutants <> [] ->
  Forall (fun p => is_integer (snd p)) pollutants ->
  maxPollutant [] = Throw "TypeError" /\
  exists before p after,
    maxPollutant pollutants = Ok p /\
    pollutants = before ++ p :: after /\
    (forall q, In q before -> integer_of (snd q) <= integer_of (snd p)) /\
    (forall q, In q after -> integer_of (snd q) < integer_of (snd p)).
Proof.
  intros Hne Hall. split; [reflexivity |].
  destruct pollutants as [| first others]; [contradiction |].
  destruct (maxPollutant_fold others first Hall)
    as (before & p & after & Hp & Hsplit & Hb & Ha).
  exists before, p, after. cbn [maxPollutant]. rewrite Hp. auto.
Qed.

Lemma maxPollutant_greatest_witness :
  exists before p after,
    maxPollutant [("Total", Int 67); ("PM2.5", Int 67); ("CO", Int 2)] = Ok p /\
    [("Total", Int 67); ("PM2.5", Int 67); ("CO", Int 2)]
    = before ++ p :: after.
Proof.
  assert (Hne : [("Total", Int 67); ("PM2.5", Int 67); ("CO", Int 2)] <> [])
    by discriminate.
  assert (Hall : Forall (fun p : string * number => is_integer (snd p))
                   [("Total", Int 67); ("PM2.5", Int 67); ("CO", Int 2)])
    by (repeat constructor).
  destruct (maxPollutant_greatest _ Hne Hall)
    as (_ & before & p & after & Hp & Hsplit & _).
  exists before, p, after. auto.
Defined.

(** X17.  The reduction that opens the card of the selected country throws
    a [TypeError] exactly when the country has no record, that is when it
    is not in the country list: the profile is then empty and the
    reduction has nothing to start from. *)
Theorem InsightCard_needs_records (data : list AQIRecord)
    (selectedCountry : string) :
  (maxPollutant (pollutantAverages (countryData data selectedCountry))
   = Throw "TypeError"
   <-> ~ In selectedCountry (countries data)) /\
  (countryData data selectedCountry = []
   <-> ~ In selectedCountry (countries data)).
Proof.
  assert (Hin : In selectedCountry (countries data)
                <-> In selectedCountry (map Country data)).
  { unfold countries. rewrite <- (Set_from_in (map Country data)).
    split; apply Permutation_in;
      [apply sort_permutation | symmetry; apply sort_permutation]. }
  assert (Hempty : countryData data selectedCountry = []
                   <-> ~ In selectedCountry (countries data))
    by (rewrite Hin; apply countryData_empty).
  split; [| exact Hempty].
  rewrite <- Hempty.
  destruct (countryData data selectedCountry) as [| d g]; cbn.
  - tauto.
  - split; discriminate.
Qed.

Lemma fold_left_num_add {A : Type} (f : A -> number) (l : list A) :
  forall a : number,
    fold_left (fun acc cur => num_add acc (f cur)) l a
    = num_add a (sum_numbers (map f l)).
Proof.
  unfold sum_numbers.
  induction l as [| x l IH]; intro a; cbn [fold_left map fold_right].
  - destruct a; cbn; [f_equal; lia | reflexivity].
  - rewrite IH. destruct a, (f x), (fold_right num_add (Int 0) (map f l));
      cbn; try reflexivity. f_equal; lia.
Qed.

(** One more record of category [k] adds one to the unhealthy total when
    [k] is an unhealthy label, and nothing otherwise. *)
Lemma unhealthy_after_increment (counts : object number) (k : string) :
  forall n : Z,
    sum_numbers (map snd (filter (fun e => unhealthy_label (fst e)) counts))
    = Int n ->
    sum_numbers
      (map snd
         (filter (fun e => unhealthy_label (fst e))
            (set counts k (num_add (or_zero (get counts k)) (Int 1)))))
    = Int (n + if unhealthy_label k then 1 else 0).
Proof.
  unfold sum_numbers.
  induction counts as [| [k' v'] counts IH]; intros n H.
  - cbn in H. injection H as <-. cbn [set get or_zero num_add filter fst].
    destruct (unhealthy_label k); reflexivity.
  - cbn [set get]. destruct (String.eqb_spec k k') as [-> | Hne].
    + cbn [filter fst] in *. destruct (unhealthy_label k').
      * cbn [map snd fold_right] in *.
        destruct v' as [a |]; [| discriminate H].
        destruct (fold_right num_add (Int 0) _) as [b |]; [| discriminate H].
        injection H as <-. cbn. f_equal. lia.
      * rewrite H. f_equal. lia.
    + cbn [filter fst] in *. destruct (unhealthy_label k').
      * cbn [map snd fold_right] in *.
        destruct v' as [a |]; [| discriminate H].
        destruct (fold_right num_add (Int 0)
                    (map snd (filter _ counts))) as [b |] eqn:Eb;
          [| discriminate H].
        injection H as <-. rewrite (IH b eq_refl). cbn. f_equal. lia.
      * apply IH, H.
Qed.

Lemma unhealthy_total (countryData : list AQIRecord) :
  sum_numbers
    (map snd (filter (fun e => unhealthy_label (fst e))
                (category_counts countryData)))
  = Int (Z.of_nat
           (length (filter (fun d => unhealthy_label (AQI_Category d))
                      countryData))).
Proof.
  induction countryData as [| d l IH] using rev_ind; [reflexivity |].
  unfold category_counts in *. rewrite fold_left_app. cbn [fold_left].
  rewrite (unhealthy_after_increment _ _ _ IH).
  rewrite filter_app, length_app. cbn [filter].
  destruct (unhealthy_label (AQI_Category d)); cbn [length]; f_equal; lia.
Qed.

(** X18.  [unhealthyCount] of the category distribution of a subset is the
    number of records of the subset whose stored category is one of
    "Unhealthy", "Very Unhealthy", "Hazardous" and "Unhealthy for Sensitive
    Groups"; it never exceeds the size of the subset. *)
Theorem unhealthyCount_counts (countryData : list AQIRecord) :
  let unhealthy :=
    filter (fun d => unhealthy_label (AQI_Category d)) countryData in
  unhealthyCount (categoryDist countryData)
  = Int (Z.of_nat (length unhealthy)) /\
  (length unhealthy <= length countryData)%nat.
Proof.
  cbv zeta. split; [| apply filter_length_le].
  unfold unhealthyCount, categoryDist.
  rewrite fold_left_num_add.
  rewrite <- (unhealthy_total countryData).
  set (counts := category_counts countryData).
  assert (H : map (fun cur : string * number * string => snd (fst cur))
                (filter
                   (fun d : string * number * string =>
                      existsb (String.eqb (fst (fst d)))
                        ["Unhealthy"; "Very Unhealthy"; "Hazardous";
                         "Unhealthy for Sensitive Groups"])
                   (map (fun '(label, value) =>
                           (label, value,
                            or_color (get CategoryColors label) "#ccc"))
                        counts))
              = map snd (filter (fun e => unhealthy_label (fst e)) counts)).
  { clear. induction counts as [| [l v] counts IH]; [reflexivity |].
    cbn [map filter fst snd]. unfold unhealthy_label at 1.
    destruct (existsb (String.eqb l) _); cbn [map fst snd]; now rewrite IH. }
  rewrite H.
  destruct (sum_numbers _) as [z |]; cbn; [f_equal; lia | reflexivity].
Qed.

(** X19.  The tone of the card follows the colour of the average, NaN
    included: positive exactly with the Good colour, moderate exactly with
    the Moderate colour, critical with the four other colours. *)
Theorem tone_matches_colour (avgAQI : number) :
  (tone avgAQI = "positive"
   <-> getColorForAQI avgAQI = Some (color_token Good)) /\
  (tone avgAQI = "moderate"
   <-> getColorForAQI avgAQI = Some (color_token Moderate)) /\
  (tone avgAQI = "critical"
   <-> getColorForAQI avgAQI <> Some (color_token Good) /\
       getColorForAQI avgAQI <> Some (color_token Moderate)).
Proof.
  unfold tone, getColorForAQI.
  destruct (num_le avgAQI (Int 50)); [| destruct (num_le avgAQI (Int 100));
    [| destruct (num_le avgAQI (Int 150)); [| destruct (num_le avgAQI (Int 200));
      [| destruct (num_le avgAQI (Int 300))]]]];
    cbn; repeat split; intros; try discriminate; try reflexivity;
    match goal with
    | H : _ /\ _ |- _ => destruct H as [H1 H2]; try (now contradiction H1);
                         try (now contradiction H2)
    end.
Qed.

(** ** The search box *)

Lemma prefix_append (t b : string) : String.prefix t (t ++ b) = true.
Proof.
  induction t as [| c t IH]; cbn.
  - now destruct b.
  - destruct (ascii_dec c c); [exact IH | contradiction].
Qed.

Lemma prefix_split (t s : string) :
  String.prefix t s = true -> exists b, s = (t ++ b)%string.
Proof.
  revert s. induction t as [| c t IH]; intros s H.
  - now exists s.
  - destruct s as [| c' s]; [discriminate |]. cbn in H.
    destruct (ascii_dec c c') as [<- | _]; [| discriminate].
    destruct (IH s H) as [b ->]. now exists b.
Qed.

Lemma includes_prefix (t s : string) :
  String.prefix t s = true -> includes t s = true.
Proof. intro H. destruct s; cbn [includes]; now rewrite H. Qed.

(** [includes] answers whether the text holds the other as a substring. *)
Lemma includes_substring (t s : string) :
  includes t s = true <-> exists a b, s = (a ++ t ++ b)%string.
Proof.
  split.
  - induction s as [| c s IH]; cbn [includes]; intro H.
    + rewrite orb_false_r in H. apply prefix_split in H.
      destruct H as [b Hb]. now exists EmptyString, b.
    + apply orb_prop in H. destruct H as [H | H].
      * apply prefix_split in H. destruct H as [b Hb].
        now exists EmptyString, b.
      * destruct (IH H) as (a & b & ->). now exists (String c a), b.
  - intros (a & b & ->). induction a as [| c a IH]; cbn [append].
    + apply includes_prefix, prefix_append.
    + cbn [includes]. rewrite IH. apply orb_true_r.
Qed.

Lemma lower_char_idempotent (c : ascii) :
  lower_char (lower_char c) = lower_char c.
Proof. destruct c as [[] [] [] [] [] [] [] []]; reflexivity. Qed.

Lemma toLowerCase_idempotent (s : string) :
  toLowerCase (toLowerCase s) = toLowerCase s.
Proof.
  induction s as [| c s IH]; cbn; [reflexivity |].
  now rewrite lower_char_idempotent, IH.
Qed.

(** X20.  The search box lists an option exactly when the option, in lower
    case, holds the search term, in lower case, as a substring; the letter
    case of the term does not matter, and the empty term lists every
    option. *)
Theorem filteredOptions_search (options : list string) (searchTerm : string) :
  (forall opt,
      In opt (filteredOptions options searchTerm)
      <-> In opt options /\
          exists a b,
            toLowerCase opt = (a ++ toLowerCase searchTerm ++ b)%string) /\
  filteredOptions options (toLowerCase searchTerm)
  = filteredOptions options searchTerm /\
  filteredOptions options "" = options.
Proof.
  split; [| split].
  - intro opt. unfold filteredOptions.
    now rewrite filter_In, includes_substring.
  - unfold filteredOptions. now rewrite toLowerCase_idempotent.
  - unfold filteredOptions. apply filter_all.
    apply Forall_forall. intros opt _. now destruct (toLowerCase opt).
Qed.

(** ** The scale of the ranking chart *)

Lemma Math_max_dominated (zs : list Z) :
  forall best : Z,
    (forall z, In z zs -> z <= best) ->
    fold_left
      (fun best v =>
         match best, v with
         | MinusInfinity, _ => Finite v
         | Finite (Int x), Int y => Finite (Int (Z.max x y))
         | Finite _, _ => Finite NaN
         end)
      (map Int zs) (Finite (Int best))
    = Finite (Int best).
Proof.
  induction zs as [| z zs IH]; intros best H; [reflexivity |].
  cbn [map fold_left]. rewrite Z.max_l by (apply H; now left).
  apply IH. intros z' Hz'. apply H. now right.
Qed.

(** X21.  The scale of the ranking chart, the greatest value among the
    ranked records, is the value of the first record of the ranking, so no
    bar is longer than the first; with no record at all the scale is minus
    infinity. *)
Theorem maxValue_of_ranking (data : list AQIRecord) (k : pollutantType) :
  integer_column k data ->
  data <> [] ->
  maxValue [] k = MinusInfinity /\
  exists d rest,
    topCities data k = d :: rest /\
    maxValue (topCities data k) k = Finite (field d k) /\
    forall d', In d' (topCities data k) ->
               integer_of (field d' k) <= integer_of (field d k).
Proof.
  intros Hint Hne. split; [reflexivity |].
  set (key := fun d => integer_of (field d k)).
  assert (Hdesc : descending (map key (topCities data k))).
  { rewrite (topCities_by_key data k Hint). apply firstn_sort_descending. }
  assert (Hin : forall d, In d (topCities data k) -> field d k = Int (key d)).
  { intros d Hd. unfold topCities, slice0 in Hd. apply in_firstn in Hd.
    apply (Permutation_in _ (sort_permutation _ data)) in Hd.
    unfold integer_column in Hint. rewrite Forall_forall in Hint.
    specialize (Hint d Hd). unfold key. now destruct (field d k). }
  destruct (topCities data k) as [| d rest] eqn:E.
  - exfalso. apply (f_equal (@length AQIRecord)) in E.
    rewrite (topCities_by_key data k Hint), length_firstn,
      (Permutation_length (sort_permutation _ data)) in E.
    destruct data; [contradiction | discriminate E].
  - exists d, rest. split; [reflexivity |].
    assert (Hle : forall d', In d' (d :: rest) -> key d' <= key d).
    { intros d' [<- | Hd']; [lia |].
      apply (descending_head_greatest _ _ Hdesc). now apply in_map. }
    split; [| exact Hle].
    unfold maxValue, Math_max. cbn [map fold_left].
    rewrite (Hin d (or_introl eq_refl)).
    rewrite (map_ext_in _ (fun d' => Int (key d')))
      by (intros d' Hd'; apply Hin; now right).
    rewrite <- (map_map key Int). apply Math_max_dominated.
    intros z Hz. apply in_map_iff in Hz. destruct Hz as (d' & <- & Hd').
    apply Hle. now right.
Qed.

Lemma maxValue_of_ranking_witness :
  maxValue (topCities [sample_X1; sample_X3; sample_X4] key_AQI_Value)
           key_AQI_Value
  = Finite (Int 170).
Proof.
  assert (Hint : integer_column key_AQI_Value [sample_X1; sample_X3; sample_X4])
    by (repeat constructor).
  assert (Hne : [sample_X1; sample_X3; sample_X4] <> []) by discriminate.
  destruct (maxValue_of_ranking _ key_AQI_Value Hint Hne)
    as (_ & d & rest & Htop & Hmax & _).
  rewrite Hmax. vm_compute in Htop. injection Htop as <- _. reflexivity.
Defined.
